(** * The MOE provider of the chatbot ([lib/ai/providers/moe.ts])

    A shallow embedding of the TypeScript client that stands between the
    NextJS application and the Python mixture-of-experts service: the
    liveness probe [checkMOEAvailability], the processing call
    [processMOEText], the helper [extractMessageText], the entry point
    [processMOERequest] built by [createMOEProvider], and the language-model
    middleware of [lib/ai/providers.ts] that calls it.

    Values of type [any] are JavaScript values; [fetch], the abort timers and
    [console] are effects threaded through a monad that carries the log of
    what the program did and returns a completion (a value or a thrown
    exception). *)

From Stdlib Require Import ZArith List String Ascii Bool Lia DecimalString.
From Stdlib Require Import SpecFloat.
Import ListNotations.
Open Scope string_scope.

(** ** JavaScript values *)

Module JS.

(** A JavaScript value as [JSON.parse] or an object literal produces it.
    Numbers are IEEE 754 doubles; an object keeps its fields in insertion
    order. *)
#[warnings="-register-all"]
Inductive Value : Type :=
| Undefined
| Null
| Bool (b : bool)
| Num (x : spec_float)
| Str (s : string)
| Arr (elems : list Value)
| Obj (fields : list (string * Value)).

(** What a [throw] carries. [MOEError] is the class of the module; the others
    are the platform's. *)
Inductive Exn : Type :=
| TypeError (message : string)
| SyntaxError (message : string)
| DOMException (name : string) (message : string)
| Error (message : string)
| MOEError (message : string) (status : option Z).

(** [error.message] *)
Definition message_of (e : Exn) : string :=
  match e with
  | TypeError m | SyntaxError m | DOMException _ m | Error m | MOEError m _ => m
  end.

(** The outcome of evaluating an expression or of awaiting a promise. *)
Inductive Completion (A : Type) : Type :=
| Normal (a : A)
| Throw (e : Exn).
Arguments Normal {A} a.
Arguments Throw {A} e.

(** ToBoolean: [undefined], [null], [false], [+0], [-0], [NaN] and the empty
    string are falsy, everything else (every array and object too) is truthy. *)
Definition truthy (v : Value) : bool :=
  match v with
  | Undefined | Null => false
  | Bool b => b
  | Num (S754_zero _) | Num S754_nan => false
  | Num _ => true
  | Str s => negb (String.eqb s "")
  | Arr _ | Obj _ => true
  end.

(** [typeof v === 'string'] *)
Definition is_string (v : Value) : bool :=
  match v with Str _ => true | _ => false end.

(** [Array.isArray(v)] *)
Definition isArray (v : Value) : bool :=
  match v with Arr _ => true | _ => false end.

(** [v === s] for a string literal [s]: strict equality, no coercion. *)
Definition strict_eq_str (v : Value) (s : string) : bool :=
  match v with Str t => String.eqb t s | _ => false end.

Fixpoint lookup (k : string) (fields : list (string * Value)) : option Value :=
  match fields with
  | [] => None
  | (k', v) :: rest => if String.eqb k k' then Some v else lookup k rest
  end.

(** [v.k] for the property names the module reads ([content], [role],
    [status], [models_loaded], [result], [expert_used], [confidence],
    [processing_time], [usedFallback]). Reading a property of [undefined] or
    [null] throws a [TypeError]; an object answers with the field or
    [undefined]; primitives and arrays have none of these names on their
    prototypes and answer [undefined]. *)
Definition get (v : Value) (k : string) : Completion Value :=
  match v with
  | Undefined =>
      Throw (TypeError ("Cannot read properties of undefined (reading '" ++ k ++ "')"))
  | Null =>
      Throw (TypeError ("Cannot read properties of null (reading '" ++ k ++ "')"))
  | Obj fields =>
      match lookup k fields with
      | Some x => Normal x
      | None => Normal Undefined
      end
  | Bool _ | Num _ | Str _ | Arr _ => Normal Undefined
  end.

(** [parts.filter(part => typeof part === 'string')], keeping the strings. *)
Fixpoint filter_strings (parts : list Value) : list string :=
  match parts with
  | [] => []
  | Str s :: rest => s :: filter_strings rest
  | _ :: rest => filter_strings rest
  end.

(** [Array.prototype.join] on an array of strings. *)
Fixpoint join (sep : string) (l : list string) : string :=
  match l with
  | [] => ""
  | [s] => s
  | s :: rest => s ++ sep ++ join sep rest
  end.

End JS.
Import JS.

(** ** [extractMessageText] *)

(** Sequencing of completions: the rest of the function runs only when the
    step did not throw. *)
Definition cbind {A B} (c : Completion A) (k : A -> Completion B) : Completion B :=
  match c with
  | Normal a => k a
  | Throw e => Throw e
  end.

Declare Scope completion_scope.
Delimit Scope completion_scope with completion.
Notation "'let?' x ':=' c 'in' k" := (cbind c (fun x => k))
  (at level 10, x name, c at level 100, k at level 200) : completion_scope.

(** The helper of lines 119-136. The parameter is [any]; the result is what
    the [return] statements produce. *)
Definition extractMessageText (message : Value) : Completion Value :=
  (if negb (truthy message) then Normal (Str "")
   else
     let? content := get message "content" in
     if negb (truthy content) then Normal (Str "")
     else if is_string content then Normal content
     else
       match content with
       | Arr parts => Normal (Str (join " " (filter_strings parts)))
       | _ => Normal (Str "")
       end)%completion.

(** ** Effects: the network, the abort timers and the console *)

Inductive Method : Type := GET | POST.

(** The second argument of [fetch], without the abort signal. [body] holds the
    value handed to [JSON.stringify]. *)
Record Request : Type := mkRequest {
  url : string;
  method : Method;
  headers : list (string * string);
  body : option Value
}.

(** What an awaited promise does: it settles, with a value or with an
    exception, or it never settles, and the async function that awaits it
    stays suspended at that [await]. *)
Inductive Outcome (A : Type) : Type :=
| Done (c : Completion A)
| Pending.
Arguments Done {A} c.
Arguments Pending {A}.

(** A settled promise is written as its completion, also inside the pair of
    an outcome and a log. *)
Coercion Done : Completion >-> Outcome.
Arguments pair {A B}%_type_scope & a b.

(** What [fetch] resolves with: the status line and what [response.json()]
    does. The body is read after the headers: the read yields the parsed
    value, rejects on a malformed or interrupted body, or never settles when
    the body stalls. *)
Record Response : Type := mkResponse {
  status : Z;
  statusText : string;
  json : Outcome Value
}.

(** [response.ok]: the status is in the range 200-299. *)
Definition ok (r : Response) : bool :=
  ((200 <=? status r) && (status r <=? 299))%Z.

(** What the remote side does with one request. Times are milliseconds since
    the request was issued. *)
Inductive NetOutcome : Type :=
| Responds (after_ms : Z) (r : Response)
| Fails (after_ms : Z) (reason : string)
| Silent.

(** The module constants of lines 9-10, read once from the environment.
    [MOE_TIMEOUT_MS] is the integer that [parseInt] yields, of either sign
    and of any size. For an environment value without leading digits
    [parseInt] yields [NaN]; the constant is read at line 78 only, as the
    delay of a timer, where [NaN] counts as a delay below 1: it is
    represented by [0]. *)
Record Config : Type := mkConfig {
  MOE_API_BASE_URL : string;
  MOE_TIMEOUT_MS : Z
}.

Definition default_config : Config :=
  {| MOE_API_BASE_URL := "http://localhost:8000"; MOE_TIMEOUT_MS := 30000 |}.

(** The surroundings of a run: the configuration and the behaviour of the
    network, which may answer the [n]-th request of the run differently from
    the ones before. *)
Record World : Type := mkWorld {
  config : Config;
  net : nat -> Request -> NetOutcome
}.

(** What the program did, in order of occurrence: requests issued (with the
    delay of the abort timer armed for them) and lines written to the
    console. *)
Inductive Event : Type :=
| EFetch (req : Request) (deadline_ms : Z)
| EWarn (text : string)
| EError (text : string) (e : Exn).

Definition Log : Type := list Event.

Definition is_fetch (ev : Event) : bool :=
  match ev with EFetch _ _ => true | _ => false end.

(** The number of requests issued so far. *)
Definition fetch_count (l : Log) : nat := List.length (filter is_fetch l).

(** The monad of the asynchronous functions: a computation reads the world,
    extends the log and completes normally, completes by throwing, or stays
    suspended at an [await] that never settles. *)
Definition M (A : Type) : Type := World -> Log -> Outcome A * Log.

Definition ret {A} (a : A) : M A := fun _ l => (Done (Normal a), l).

Definition throw {A} (e : Exn) : M A := fun _ l => (Done (Throw e), l).

(** What follows a suspended step does not run. *)
Definition bind {A B} (m : M A) (k : A -> M B) : M B :=
  fun w l =>
    match m w l with
    | (Done (Normal a), l') => k a w l'
    | (Done (Throw e), l') => (Done (Throw e), l')
    | (Pending, l') => (Pending, l')
    end.

(** [try { m } catch (error) { h error }]: a block that stays suspended
    never reaches its handler. *)
Definition try_catch {A} (m : M A) (h : Exn -> M A) : M A :=
  fun w l =>
    match m w l with
    | (Done (Normal a), l') => (Done (Normal a), l')
    | (Done (Throw e), l') => h e w l'
    | (Pending, l') => (Pending, l')
    end.

Definition lift {A} (c : Completion A) : M A := fun _ l => (Done c, l).

(** [await p] for a promise of the platform. *)
Definition await {A} (p : Outcome A) : M A := fun _ l => (p, l).

Definition ask : M Config := fun w l => (Done (Normal (config w)), l).

Declare Scope moe_scope.
Delimit Scope moe_scope with moe.
Notation "x <- m ;; k" := (bind m (fun x => k))
  (at level 100, m at next level, right associativity) : moe_scope.
Notation "m ;; k" := (bind m (fun _ => k))
  (at level 100, right associativity) : moe_scope.
Open Scope moe_scope.

(** The largest delay a timer takes. *)
Definition TIMEOUT_MAX : Z := 2147483647.

(** The time after which [setTimeout(f, ms)] fires: a delay below 1 or above
    [TIMEOUT_MAX] is replaced by 1. *)
Definition timer_delay (ms : Z) : Z :=
  if ((1 <=? ms) && (ms <=? TIMEOUT_MAX))%Z then ms else 1%Z.

(** The settlement of [fetch(url, {..., signal})] when the abort of the
    signal is scheduled by [setTimeout(..., deadline_ms)] at the call: what
    arrives strictly before the timer fires wins, otherwise the promise
    rejects with the [AbortError] of the signal. The promise settles with the
    headers of the response; the body is not part of it. *)
Definition settle (o : NetOutcome) (deadline_ms : Z) : Completion Response :=
  match o with
  | Responds t r =>
      if (t <? timer_delay deadline_ms)%Z then Normal r
      else Throw (DOMException "AbortError" "This operation was aborted")
  | Fails t reason =>
      if (t <? timer_delay deadline_ms)%Z then Throw (TypeError reason)
      else Throw (DOMException "AbortError" "This operation was aborted")
  | Silent => Throw (DOMException "AbortError" "This operation was aborted")
  end.

(** [setTimeout(() => controller.abort(), deadline_ms)], [await fetch(...)]
    and [clearTimeout]: once [fetch] has settled the timer is cleared. The
    event keeps the delay that was handed to [setTimeout]. *)
Definition fetch (req : Request) (deadline_ms : Z) : M Response :=
  fun w l =>
    (Done (settle (net w (fetch_count l) req) deadline_ms),
     (l ++ [EFetch req deadline_ms])%list).

(** [await response.json()]: the timer of the request is cleared by now, so
    the read is under no deadline. *)
Definition await_json (r : Response) : M Value := await (json r).

Definition console_warn (text : string) : M unit :=
  fun _ l => (Done (Normal tt), (l ++ [EWarn text])%list).

Definition console_error (text : string) (e : Exn) : M unit :=
  fun _ l => (Done (Normal tt), (l ++ [EError text e])%list).

(** ** The client of the MOE service *)

(** [`${n}`] for an integer status code. *)
Definition show_status (n : Z) : string := NilZero.string_of_int (Z.to_int n).

Definition health_request (c : Config) : Request :=
  {| url := MOE_API_BASE_URL c ++ "/health";
     method := GET;
     headers := [];
     body := None |}.

(** The delay of the abort timer of the liveness probe (line 45). *)
Definition HEALTH_TIMEOUT_MS : Z := 5000.

(** Lines 42-64. The value returned is the value of
    [data.status === 'healthy' && data.models_loaded]: [false] when the
    comparison fails, otherwise whatever [models_loaded] holds. *)
Definition checkMOEAvailability : M Value :=
  try_catch
    (c <- ask ;;
     response <- fetch (health_request c) HEALTH_TIMEOUT_MS ;;
     if negb (ok response) then ret (Bool false)
     else
       data <- await_json response ;;
       st <- lift (get data "status") ;;
       if strict_eq_str st "healthy" then lift (get data "models_loaded")
       else ret (Bool false))
    (fun error =>
       console_error "MOE health check failed:" error ;;
       ret (Bool false)).

(** The second parameter of [processMOEText]. A field that is absent, or
    present with the value [undefined], takes the default of the
    destructuring pattern. *)
Record MOERequestOptions : Type := mkOptions {
  task : option Value;
  options : option Value
}.

(** The default [= {}] of the second parameter. *)
Definition no_options : MOERequestOptions := {| task := None; options := None |}.

(** [{ field = default }]: the default stands in for [undefined]. *)
Definition with_default (field : option Value) (default : Value) : Value :=
  match field with
  | None | Some Undefined => default
  | Some v => v
  end.

Definition process_request (c : Config) (text : Value) (o : MOERequestOptions) : Request :=
  {| url := MOE_API_BASE_URL c ++ "/process/sync";
     method := POST;
     headers := [("Content-Type", "application/json")];
     body := Some (Obj [("text", text);
                        ("task", with_default (task o) (Str "process"));
                        ("options", with_default (options o) (Obj []))]) |}.

(** Lines 72-114: every failure leaves the function as an [MOEError]. *)
Definition processMOEText (text : Value) (o : MOERequestOptions) : M Value :=
  try_catch
    (c <- ask ;;
     response <- fetch (process_request c text o) (MOE_TIMEOUT_MS c) ;;
     if negb (ok response) then
       throw (MOEError ("MOE API returned " ++ show_status (status response) ++ ": "
                          ++ statusText response)
                       (Some (status response)))
     else await_json response)
    (fun error =>
       match error with
       | MOEError _ _ => throw error
       | DOMException name _ =>
           if String.eqb name "AbortError"
           then throw (MOEError "MOE API request timed out" (Some 408%Z))
           else throw (MOEError ("MOE API request failed: " ++ message_of error) None)
       | _ => throw (MOEError ("MOE API request failed: " ++ message_of error) None)
       end).

(** [messages.filter(m => m.role === 'user')]: the callback reads [role] of
    every element in turn, and the call throws when [messages] has no
    [filter] method or when an element is [undefined] or [null]. *)
Fixpoint filter_user (ms : list Value) : Completion (list Value) :=
  match ms with
  | [] => Normal []
  | m :: rest =>
      (let? role := get m "role" in
       let? kept := filter_user rest in
       Normal (if strict_eq_str role "user" then m :: kept else kept))%completion
  end.

Definition user_messages (messages : Value) : Completion (list Value) :=
  match messages with
  | Arr ms => filter_user ms
  | Undefined =>
      Throw (TypeError "Cannot read properties of undefined (reading 'filter')")
  | Null =>
      Throw (TypeError "Cannot read properties of null (reading 'filter')")
  | _ => Throw (TypeError "messages.filter is not a function")
  end.

(** [Array.prototype.pop]: the last element, [undefined] on an empty array. *)
Definition pop (l : list Value) : Value := last l Undefined.

(** The object returned on the two fallback paths (lines 149 and 175). *)
Definition fallback_result : Value := Obj [("usedFallback", Bool true)].

(** Lines 143-177, the method of the object that [createMOEProvider] builds.
    Neither [fallbackProvider] nor [options] is read by the body. *)
Definition processMOERequest (messages : Value) (opts : Value) : M Value :=
  let opts := match opts with Undefined => Obj [] | _ => opts end in
  try_catch
    (isMOEAvailable <- checkMOEAvailability ;;
     if negb (truthy isMOEAvailable) then
       console_warn "MOE API unavailable, falling back to default provider" ;;
       ret fallback_result
     else
       users <- lift (user_messages messages) ;;
       let lastUserMessage := pop users in
       if negb (truthy lastUserMessage) then throw (Error "No user message found")
       else
         userText <- lift (extractMessageText lastUserMessage) ;;
         moeResponse <- processMOEText userText no_options ;;
         result <- lift (get moeResponse "result") ;;
         expert_used <- lift (get moeResponse "expert_used") ;;
         confidence <- lift (get moeResponse "confidence") ;;
         processing_time <- lift (get moeResponse "processing_time") ;;
         ret (Obj [("result", result);
                   ("expertUsed", expert_used);
                   ("confidence", confidence);
                   ("processingTime", processing_time);
                   ("usedFallback", Bool false)]))
    (fun error =>
       console_error "MOE processing failed:" error ;;
       ret fallback_result).

(** [createMOEProvider(fallbackProvider)] *)
Record MOEProvider : Type := mkProvider {
  provider_processMOERequest : Value -> Value -> M Value
}.

Definition createMOEProvider (fallbackProvider : M Value) : MOEProvider :=
  {| provider_processMOERequest := processMOERequest |}.

(** ** The callers: [lib/ai/providers.ts] and the chat route *)

(** The provider built at line 35 of [providers.ts]; its fallback argument is
    the base chat model. *)
Definition moeProvider (chat_model : M Value) : MOEProvider :=
  createMOEProvider chat_model.

(** The middleware wrapped around the chat model for an MOE model id (lines
    54-66, 70-82 and 86-96): [expertModel] is the expert named in the options
    literal, absent for [moe-auto], which passes no second argument. *)
Definition moe_middleware (p : MOEProvider) (expertModel : option string)
    (messages : Value) (generate : M Value) : M Value :=
  moeResult <- provider_processMOERequest p messages
                 (match expertModel with
                  | Some e => Obj [("expertModel", Str e)]
                  | None => Undefined
                  end) ;;
  usedFallback <- lift (get moeResult "usedFallback") ;;
  if negb (truthy usedFallback) then
    result <- lift (get moeResult "result") ;;
    ret (Obj [("text", result)])
  else generate.

(** The MOE entries of [languageModels] outside the test environment. *)
Definition myProvider (chat_model : M Value) (id : string)
    : option (Value -> M Value -> M Value) :=
  if String.eqb id "moe-expert-byt5" then
    Some (moe_middleware (moeProvider chat_model) (Some "byt5"))
  else if String.eqb id "moe-expert-longformer" then
    Some (moe_middleware (moeProvider chat_model) (Some "longformer"))
  else if String.eqb id "moe-auto" then
    Some (moe_middleware (moeProvider chat_model) None)
  else None.

(** Lines 108-121 of the chat route: the availability gate that runs before
    the model is invoked. The answer is the value of [moeAvailable]. *)
Definition route_moe_gate (selectedChatModel : string) : M Value :=
  let isMOEModel := String.prefix "moe-" selectedChatModel in
  if isMOEModel then
    try_catch
      (moeAvailable <- checkMOEAvailability ;;
       (if negb (truthy moeAvailable) then
          console_warn ("MOE API unavailable for model " ++ selectedChatModel
                          ++ ", using fallback handling")
        else ret tt) ;;
       ret moeAvailable)
      (fun error =>
         console_error "Error checking MOE availability:" error ;;
         ret (Bool false))
  else ret (Bool false).

(** Running a computation from an empty log. *)
Definition run {A} (m : M A) (w : World) : Outcome A * Log := m w [].

(** The requests in a log, oldest first. *)
Fixpoint requests (l : Log) : list Request :=
  match l with
  | [] => []
  | EFetch r _ :: rest => r :: requests rest
  | _ :: rest => requests rest
  end.

Definition is_health_probe (c : Config) (ev : Event) : bool :=
  match ev with
  | EFetch r _ => String.eqb (url r) (MOE_API_BASE_URL c ++ "/health")
  | _ => false
  end.

Definition is_processing_call (c : Config) (ev : Event) : bool :=
  match ev with
  | EFetch r _ => String.eqb (url r) (MOE_API_BASE_URL c ++ "/process/sync")
  | _ => false
  end.

(** How many liveness probes, and how many calls of the processing endpoint,
    a log holds. *)
Definition probes (c : Config) (l : Log) : nat :=
  List.length (filter (is_health_probe c) l).

Definition processing_calls (c : Config) (l : Log) : nat :=
  List.length (filter (is_processing_call c) l).

(** ** Vocabulary of the statements *)

(** What the network does with the liveness probe issued when the log is
    [l]. *)
Definition probe_outcome (w : World) (l : Log) : NetOutcome :=
  net w (fetch_count l) (health_request (config w)).

(** The probe completes within its deadline with an ok response whose body
    has [status] equal to ["healthy"] and a [models_loaded] that satisfies
    [P]. *)
Definition healthy_with (P : Value -> Prop) (o : NetOutcome) : Prop :=
  exists t r data m,
    o = Responds t r /\ (t < HEALTH_TIMEOUT_MS)%Z /\ ok r = true /\
    json r = Normal data /\
    get data "status" = Normal (Str "healthy") /\
    get data "models_loaded" = Normal m /\ P m.

(** ... and [models_loaded] is [true]. *)
Definition affirmative : NetOutcome -> Prop :=
  healthy_with (fun m => m = Bool true).

(** The probes that end before [models_loaded] is looked at: no answer or a
    late one (timeout), a connection failure, a status outside 200-299, a
    body that does not parse, a body ([null] included) whose [status] is not
    ["healthy"]. A timely ok body whose [status] is ["healthy"] is not among
    them, whatever its [models_loaded]: see [healthy_with]. *)
Inductive probe_fails : NetOutcome -> Prop :=
| probe_silent : probe_fails Silent
| probe_late t r : (HEALTH_TIMEOUT_MS <= t)%Z -> probe_fails (Responds t r)
| probe_connection t reason : probe_fails (Fails t reason)
| probe_not_ok t r : ok r = false -> probe_fails (Responds t r)
| probe_malformed t r e : json r = Throw e -> probe_fails (Responds t r)
| probe_status t r data :
    json r = Normal data -> get data "status" <> Normal (Str "healthy") ->
    probe_fails (Responds t r).

(** The headers of an ok response arrive before the timer of [deadline_ms]
    fires, and the body never completes. *)
Definition stalls (deadline_ms : Z) (o : NetOutcome) : Prop :=
  exists t r,
    o = Responds t r /\ (t < timer_delay deadline_ms)%Z /\ ok r = true /\
    json r = Pending.

(** Every body the network sends completes or breaks off. *)
Definition bodies_settle (w : World) : Prop :=
  forall n req t r, net w n req = Responds t r -> json r <> Pending.

(** A health body as the service documents it. *)
Definition health_body (st : string) (models_loaded : bool) : Value :=
  Obj [("status", Str st); ("models_loaded", Bool models_loaded)].

Definition json_response (v : Value) : Response :=
  {| status := 200; statusText := "OK"; json := Normal v |}.

(** Lines 54-62 read as a function of the way the probe settles: what the
    call resolves with, if it does; the proofs relate [checkMOEAvailability]
    to it. *)
Definition probe_answer (s : Completion Response) : Outcome Value :=
  match s with
  | Throw _ => Normal (Bool false)
  | Normal r =>
      if negb (ok r) then Normal (Bool false)
      else match json r with
           | Pending => Pending
           | Done (Throw _) => Normal (Bool false)
           | Done (Normal data) =>
               match get data "status" with
               | Throw _ => Normal (Bool false)
               | Normal st =>
                   if strict_eq_str st "healthy" then
                     match get data "models_loaded" with
                     | Normal v => Normal v
                     | Throw _ => Normal (Bool false)
                     end
                   else Normal (Bool false)
               end
           end
  end.

(** The value the probe resolves with; [false] stands in when the call
    stays suspended and resolves with nothing. *)
Definition verdict (s : Completion Response) : Value :=
  match probe_answer s with
  | Done (Normal v) => v
  | _ => Bool false
  end.

(** Lines 153-161 read as one expression: the text of the last message whose
    [role] is ['user'], or the exception that leaves the [try] block. *)
Definition last_user_text (messages : Value) : Completion Value :=
  (let? users := user_messages messages in
   if negb (truthy (pop users)) then Throw (Error "No user message found")
   else extractMessageText (pop users))%completion.

(** Lines 166-172: the object built from the answer of the service. *)
Definition success_result (moeResponse : Value) : Completion Value :=
  (let? result := get moeResponse "result" in
   let? expert_used := get moeResponse "expert_used" in
   let? confidence := get moeResponse "confidence" in
   let? processing_time := get moeResponse "processing_time" in
   Normal (Obj [("result", result);
                ("expertUsed", expert_used);
                ("confidence", confidence);
                ("processingTime", processing_time);
                ("usedFallback", Bool false)]))%completion.

(** What the network does with the processing call for [text] issued when
    the log is [l]. *)
Definition processing_outcome (w : World) (l : Log) (text : Value) : NetOutcome :=
  net w (fetch_count l) (process_request (config w) text no_options).

(** The failures of a call whose abort is scheduled with the delay
    [deadline_ms]: a timeout (nothing has arrived when the timer fires), a
    transport error, an error response of the expert service, a body that
    does not parse. *)
Inductive call_fails (deadline_ms : Z) : NetOutcome -> Prop :=
| fails_silent : call_fails deadline_ms Silent
| fails_late t r :
    (timer_delay deadline_ms <= t)%Z -> call_fails deadline_ms (Responds t r)
| fails_transport t reason : call_fails deadline_ms (Fails t reason)
| fails_error_response t r : ok r = false -> call_fails deadline_ms (Responds t r)
| fails_malformed t r e : json r = Throw e -> call_fails deadline_ms (Responds t r).

(** The two events a dispatch can log for its requests. *)
Definition probe_event (w : World) : Event :=
  EFetch (health_request (config w)) HEALTH_TIMEOUT_MS.

Definition processing_event (w : World) (text : Value) : Event :=
  EFetch (process_request (config w) text no_options) (MOE_TIMEOUT_MS (config w)).

(** The log after the [catch] of line 173 has reported [e]. *)
Definition failed_log (l : Log) (e : Exn) : Log :=
  (l ++ [EError "MOE processing failed:" e])%list.

(** The line written on the early return of line 148. *)
Definition unavailable_log (l : Log) : Log :=
  (l ++ [EWarn "MOE API unavailable, falling back to default provider"])%list.

(** The experts the provider names (lines 57 and 73 of [providers.ts]). *)
Definition known_experts : list string := ["byt5"; "longformer"].

(** The options literal of a forced expert. *)
Definition forced (expertModel : string) : Value :=
  Obj [("expertModel", Str expertModel)].

(** ** Sample worlds *)

Definition number (m : positive) (e : Z) : Value := Num (S754_finite false m e).

(** An answer of the processing endpoint. *)
Definition moe_answer (result expert : string) (confidence : Value) : Value :=
  Obj [("result", Str result);
       ("expert_used", Str expert);
       ("confidence", confidence);
       ("processing_time", number 3 (-2))].

(** A deployment with the default configuration whose service treats every
    liveness probe as [health] and every processing call as [processing]. *)
Definition service (health processing : NetOutcome) : World :=
  {| config := default_config;
     net := fun _ req =>
              match method req with
              | GET => health
              | POST => processing
              end |}.

(** The same deployment with [MOE_TIMEOUT_MS] set to [ms]. *)
Definition with_timeout (ms : Z) (w : World) : World :=
  {| config := {| MOE_API_BASE_URL := MOE_API_BASE_URL (config w);
                  MOE_TIMEOUT_MS := ms |};
     net := net w |}.

Definition up : NetOutcome := Responds 40 (json_response (health_body "healthy" true)).

Definition loading : NetOutcome := Responds 40 (json_response (health_body "loading" false)).

Definition refused : NetOutcome := Fails 2 "fetch failed".

(** The headers of a 200 arrive after 40 ms and the body never completes. *)
Definition stalled : NetOutcome :=
  Responds 40 {| status := 200; statusText := "OK"; json := Pending |}.

(** The service says it is healthy and says nothing of its models. *)
Definition healthy_without_models : NetOutcome :=
  Responds 40 (json_response (Obj [("status", Str "healthy")])).

Definition overloaded : NetOutcome :=
  Responds 900 {| status := 503; statusText := "Service Unavailable";
                  json := Normal (Obj [("detail", Str "busy")]) |}.

(** The service routes by itself and answers with the long-document expert. *)
Definition routed_to_longformer : NetOutcome :=
  Responds 1245 (json_response (moe_answer "Processed by Longformer" "longformer"
                                            (number 3 (-2)))).

Definition hello : Value :=
  Arr [Obj [("role", Str "user"); ("content", Str "hello")]].

(** ** Concurrent callers of the probe *)

(** A call of [checkMOEAvailability] in flight. An async function runs up to
    its next [await]; the event loop then resumes, in any order, the calls
    whose awaited promise has settled. The function holds no state outside
    its own locals, so a call is described by the point where it is
    suspended; a call that has issued its request carries the rank [n] of
    that request among the requests of the run. *)
Inductive Call : Type :=
| Called
| AwaitingFetch (n : nat)
| AwaitingJson (n : nat) (r : Response)
| Settled (n : nat) (v : Value).

(** Lines 58-59: the body is awaited, then read. *)
Definition read_health (r : Response) : Outcome Value :=
  match json r with
  | Pending => Pending
  | Done (Throw e) => Throw e
  | Done (Normal data) =>
      (let? st := get data "status" in
       if strict_eq_str st "healthy" then get data "models_loaded"
       else Normal (Bool false))%completion
  end.

(** Running a call up to its next suspension point: from the call to the
    [await] of line 47 (the request leaves as the [n]-th of the run), from
    there to the [await] of line 58 or to a [return], and from there, once
    the body has settled, to a [return]. *)
Definition resume (w : World) (c : Call) (l : Log) : Call * Log :=
  match c with
  | Called => (AwaitingFetch (fetch_count l), (l ++ [probe_event w])%list)
  | AwaitingFetch n =>
      match settle (net w n (health_request (config w))) HEALTH_TIMEOUT_MS with
      | Throw e =>
          (Settled n (Bool false), (l ++ [EError "MOE health check failed:" e])%list)
      | Normal r =>
          if negb (ok r) then (Settled n (Bool false), l) else (AwaitingJson n r, l)
      end
  | AwaitingJson n r =>
      match read_health r with
      | Done (Normal v) => (Settled n v, l)
      | Done (Throw e) =>
          (Settled n (Bool false), (l ++ [EError "MOE health check failed:" e])%list)
      | Pending => (AwaitingJson n r, l)
      end
  | Settled n v => (Settled n v, l)
  end.

Fixpoint replace {A} (i : nat) (x : A) (l : list A) : list A :=
  match l, i with
  | [], _ => []
  | _ :: rest, O => x :: rest
  | y :: rest, S j => y :: replace j x rest
  end.

(** The event loop resumes the [i]-th call. *)
Definition advance (w : World) (s : list Call * Log) (i : nat) : list Call * Log :=
  match nth_error (fst s) i with
  | Some c => let '(c', l') := resume w c (snd s) in (replace i c' (fst s), l')
  | None => s
  end.

(** A schedule is the order in which the event loop resumes the calls. *)
Definition exec (w : World) (schedule : list nat) (s : list Call * Log) : list Call * Log :=
  fold_left (advance w) schedule s.

(** A deployment whose service answers the first request of a run as a
    healthy service and refuses the connection of every later one. *)
Definition going_down : World :=
  {| config := default_config;
     net := fun n _ => match n with O => up | S _ => refused end |}.

(** [n] callers about to query the health of the service. *)
Definition callers (n : nat) : list Call := repeat Called n.

Definition is_settled (c : Call) : bool :=
  match c with Settled _ _ => true | _ => false end.

Definition started (c : Call) : bool :=
  match c with Called => false | _ => true end.

(** The rank of the request a call has issued. *)
Definition request_of (c : Call) : option nat :=
  match c with
  | Called => None
  | AwaitingFetch n | AwaitingJson n _ | Settled n _ => Some n
  end.

Definition b2n (b : bool) : nat := if b then 1 else 0.

(** The calls that have passed their first suspension point. *)
Definition count_started (cs : list Call) : nat := List.length (filter started cs).

(** What the network does with the [n]-th request of the run when that
    request is a liveness probe. *)
Definition nth_probe_outcome (w : World) (n : nat) : NetOutcome :=
  net w n (health_request (config w)).

(** A call is consistent with a run of [k] requests: its request is one of
    them, and where the call stands is where the outcome of that request
    puts it. *)
Definition call_ok (w : World) (k : nat) (c : Call) : Prop :=
  match c with
  | Called => True
  | AwaitingFetch n => n < k
  | AwaitingJson n r =>
      n < k /\ settle (nth_probe_outcome w n) HEALTH_TIMEOUT_MS = Normal r /\
      ok r = true
  | Settled n v =>
      n < k /\
      probe_answer (settle (nth_probe_outcome w n) HEALTH_TIMEOUT_MS) = Normal v
  end.

(** The invariant of the event loop: the log holds one request per started
    call, every request is a probe, every call is consistent with it, and no
    two calls share a request. *)
Definition coherent (w : World) (s : list Call * Log) : Prop :=
  probes (config w) (snd s) = count_started (fst s) /\
  fetch_count (snd s) = count_started (fst s) /\
  requests (snd s) = repeat (health_request (config w)) (count_started (fst s)) /\
  (forall i c, nth_error (fst s) i = Some c -> call_ok w (fetch_count (snd s)) c) /\
  (forall i j ci cj n,
     nth_error (fst s) i = Some ci -> nth_error (fst s) j = Some cj ->
     request_of ci = Some n -> request_of cj = Some n -> i = j).

(** ** Further vocabulary *)

(** A request that is not settled when the abort timer scheduled with the
    delay [deadline_ms] fires: nothing arrives, or what arrives is late. *)
Inductive times_out (deadline_ms : Z) : NetOutcome -> Prop :=
| late_silent : times_out deadline_ms Silent
| late_response t r :
    (timer_delay deadline_ms <= t)%Z -> times_out deadline_ms (Responds t r)
| late_failure t reason :
    (timer_delay deadline_ms <= t)%Z -> times_out deadline_ms (Fails t reason).

(** What the network does with the call of [processMOEText text o] issued
    when the log is [l]. *)
Definition call_outcome (w : World) (l : Log) (text : Value) (o : MOERequestOptions)
    : NetOutcome :=
  net w (fetch_count l) (process_request (config w) text o).

(** [v == null]: the two values whose properties cannot be read. *)
Definition nullish (v : Value) : bool :=
  match v with Undefined | Null => true | _ => false end.

(** The test of the callback of line 154 on an element whose [role] can be
    read. *)
Definition is_user (m : Value) : bool :=
  match get m "role" with
  | Normal role => strict_eq_str role "user"
  | Throw _ => false
  end.

(** [v.k] for a [v] that is not nullish: the field, or [undefined]. *)
Definition prop (v : Value) (k : string) : Value :=
  match get v k with
  | Normal x => x
  | Throw _ => Undefined
  end.

(** ** The chat route ([app/(chat)/api/chat/route.ts]) *)

(** [s.includes(sub)] *)
Fixpoint includes (s sub : string) : bool :=
  String.prefix sub s ||
  match s with
  | EmptyString => false
  | String _ rest => includes rest sub
  end.

(** The collaborators of the route that live in other modules of the
    application ([auth], the queries of [lib/db/queries], the title action,
    the entitlements table), as the route sees them: what each call settles
    to, a value or an exception. A session may lack its user, a chat may not
    exist. *)
Record User : Type := mkUser { user_id : string; user_type : string }.

Record Session : Type := mkSession { user : option User }.

Record Chat : Type := mkChat { chat_id : string; chat_userId : string }.

Record Backend : Type := mkBackend {
  auth : Completion (option Session);
  getMessageCountByUserId : string -> Completion Z;
  maxMessagesPerDay : string -> Z;
  getChatById : string -> Completion (option Chat);
  generateTitleFromUserMessage : Value -> Completion string;
  saveChat : string -> string -> string -> Completion unit;
  getMessagesByChatId : string -> Completion (list Value);
  saveMessages : string -> Value -> Completion unit;
  deleteChatById : string -> Completion Value
}.

(** The calls the route makes to its collaborators, with their arguments. *)
Inductive Op : Type :=
| OpAuth
| OpCount (userId : string)
| OpGetChat (id : string)
| OpTitle (message : Value)
| OpSaveChat (id userId title : string)
| OpGetMessages (id : string)
| OpSaveMessages (chatId : string) (message : Value)
| OpDelete (id : string).

(** The state of a request: the calls made so far and the log of the MOE
    client. *)
Record RState : Type := mkRState { ops : list Op; events : Log }.

(** The monad of the handlers: like [M], with the collaborators at hand
    and the calls made to them recorded. *)
Definition RM (A : Type) : Type :=
  Backend -> World -> RState -> Outcome A * RState.

Definition rret {A} (a : A) : RM A := fun _ _ s => (Done (Normal a), s).

Definition rthrow {A} (e : Exn) : RM A := fun _ _ s => (Done (Throw e), s).

Definition rbind {A B} (m : RM A) (k : A -> RM B) : RM B :=
  fun b w s =>
    match m b w s with
    | (Done (Normal a), s') => k a b w s'
    | (Done (Throw e), s') => (Done (Throw e), s')
    | (Pending, s') => (Pending, s')
    end.

Definition rtry {A} (m : RM A) (h : Exn -> RM A) : RM A :=
  fun b w s =>
    match m b w s with
    | (Done (Normal a), s') => (Done (Normal a), s')
    | (Done (Throw e), s') => h e b w s'
    | (Pending, s') => (Pending, s')
    end.

(** [await f(args)] for a collaborator [f]. *)
Definition call {A} (o : Op) (f : Backend -> Completion A) : RM A :=
  fun b _ s => (Done (f b), {| ops := (ops s ++ [o])%list; events := events s |}).

(** Reading a table of the application. *)
Definition backend : RM Backend := fun b _ s => (Done (Normal b), s).

(** A computation of the MOE client run inside a request. *)
Definition client {A} (m : M A) : RM A :=
  fun _ w s =>
    let '(c, l) := m w (events s) in (c, {| ops := ops s; events := l |}).

Declare Scope route_scope.
Delimit Scope route_scope with route.
Notation "x <- m ;; k" := (rbind m (fun x => k))
  (at level 100, m at next level, right associativity) : route_scope.
Notation "m ;; k" := (rbind m (fun _ => k))
  (at level 100, right associativity) : route_scope.

(** What a handler answers with: a [Response] with a text or a JSON body, or
    the data stream of the model, for which the route has fixed the model
    id and the two flags the stream reads. *)
Inductive ResponseBody : Type :=
| Text (s : string)
| Json (v : Value).

Inductive RouteResult : Type :=
| Respond (status : Z) (body : ResponseBody)
| DataStream (selectedChatModel : string) (isMOEModel : bool) (moeAvailable : Value).

(** The body of the request after [request.json()] and the schema. *)
Record PostRequestBody : Type := mkBody {
  body_id : string;
  body_message : Value;
  body_selectedChatModel : string
}.

(** Lines 210-232: the answer to an exception caught by the route. What is
    thrown is an [Error] object. *)
Definition error_response (error : Exn) : RouteResult :=
  let errorMessage := message_of error in
  if includes errorMessage "timed out" || includes errorMessage "aborted" then
    Respond 408 (Text "Request timed out. Please try again with a shorter message.")
  else if includes errorMessage "database" || includes errorMessage "connection" then
    Respond 503 (Text "Database connection error. Please try again later.")
  else
    Respond 500 (Text "An error occurred while processing your request!").

(** Lines 88-123, from the messages of the chat to the data stream; the
    list built by [appendClientMessage] goes to the stream and is not kept
    here. *)
Definition route_stream (requestBody : PostRequestBody) : RM RouteResult :=
  (let id := body_id requestBody in
   let message := body_message requestBody in
   let selectedChatModel := body_selectedChatModel requestBody in
   previousMessages <- call (OpGetMessages id) (fun b => getMessagesByChatId b id) ;;
   call (OpSaveMessages id message) (fun b => saveMessages b id message) ;;
   moeAvailable <- client (route_moe_gate selectedChatModel) ;;
   rret (DataStream selectedChatModel (String.prefix "moe-" selectedChatModel)
                    moeAvailable))%route.

(** The handler of POST (lines 33-233); [parsed] is what [request.json()]
    followed by the schema settles to. The abort controller of lines 44-47 is
    handed to nothing and has no part in the outcome. *)
Definition route_POST (parsed : Completion PostRequestBody) : RM RouteResult :=
  match parsed with
  | Throw _ => rret (Respond 400 (Text "Invalid request body"))
  | Normal requestBody =>
      let id := body_id requestBody in
      let message := body_message requestBody in
      rtry
        (session <- call OpAuth auth ;;
         match match session with Some s => user s | None => None end with
         | None => rret (Respond 401 (Text "Unauthorized"))
         | Some u =>
             messageCount <- call (OpCount (user_id u))
                                  (fun b => getMessageCountByUserId b (user_id u)) ;;
             entitlements <- backend ;;
             if (messageCount >? maxMessagesPerDay entitlements (user_type u))%Z then
               rret (Respond 429 (Text "You have exceeded your maximum number of messages for the day! Please try again later."))
             else
               chat <- call (OpGetChat id) (fun b => getChatById b id) ;;
               match chat with
               | None =>
                   title <- call (OpTitle message)
                                 (fun b => generateTitleFromUserMessage b message) ;;
                   call (OpSaveChat id (user_id u) title)
                        (fun b => saveChat b id (user_id u) title) ;;
                   route_stream requestBody
               | Some c =>
                   if negb (String.eqb (chat_userId c) (user_id u)) then
                     rret (Respond 403 (Text "Forbidden"))
                   else route_stream requestBody
               end
         end)%route
        (fun error => rret (error_response error))
  end.

(** The handler of DELETE (lines 235-264); [id] is [searchParams.get('id')],
    absent when the parameter is. *)
Definition route_DELETE (id : option string) : RM RouteResult :=
  match id with
  | None => rret (Respond 404 (Text "Not Found"))
  | Some id =>
      if String.eqb id "" then rret (Respond 404 (Text "Not Found"))
      else
        (session <- call OpAuth auth ;;
         match match session with Some s => user s | None => None end with
         | None => rret (Respond 401 (Text "Unauthorized"))
         | Some u =>
             if String.eqb (user_id u) "" then rret (Respond 401 (Text "Unauthorized"))
             else
               rtry
                 (chat <- call (OpGetChat id) (fun b => getChatById b id) ;;
                  match chat with
                  | None =>
                      rthrow (TypeError "Cannot read properties of undefined (reading 'userId')")
                  | Some c =>
                      if negb (String.eqb (chat_userId c) (user_id u)) then
                        rret (Respond 403 (Text "Forbidden"))
                      else
                        deletedChat <- call (OpDelete id) (fun b => deleteChatById b id) ;;
                        rret (Respond 200 (Json deletedChat))
                  end)
                 (fun _ => rret (Respond 500 (Text "An error occurred while processing your request!")))
         end)%route
  end.

(** A request starts with no call made and an empty log. *)
Definition fresh : RState := {| ops := []; events := [] |}.

(** The state after the calls [new] have been made. *)
Definition after (s : RState) (new : list Op) : RState :=
  {| ops := (ops s ++ new)%list; events := events s |}.

(** The session of a signed-in user. *)
Definition signed_in (u : User) : Completion (option Session) :=
  Normal (Some {| user := Some u |}).

(** A session without a user, or no session at all. *)
Definition anonymous (c : Completion (option Session)) : Prop :=
  c = Normal None \/ c = Normal (Some {| user := None |}).

(** The statuses of the answers the two handlers build. *)
Definition refusal (st : Z) : bool :=
  ((st =? 400) || (st =? 401) || (st =? 403) || (st =? 429))%Z.

(** ** Sample collaborators *)

Definition alice : User := {| user_id := "alice"; user_type := "regular" |}.

(** A backend whose calls all succeed: the session is [session], the user
    has sent [count] messages today out of 100 allowed, and the chat asked
    for is [chat]. *)
Definition sample_backend (session : Completion (option Session)) (count : Z)
    (chat : option Chat) : Backend :=
  {| auth := session;
     getMessageCountByUserId := fun _ => Normal count;
     maxMessagesPerDay := fun _ => 100%Z;
     getChatById := fun _ => Normal chat;
     generateTitleFromUserMessage := fun _ => Normal "New chat";
     saveChat := fun _ _ _ => Normal tt;
     getMessagesByChatId := fun _ => Normal [];
     saveMessages := fun _ _ => Normal tt;
     deleteChatById := fun id => Normal (Obj [("id", Str id)]) |}.

Definition sample_body (selectedChatModel : string) : PostRequestBody :=
  {| body_id := "chat-1";
     body_message := Obj [("id", Str "m-1"); ("role", Str "user");
                          ("content", Str "hello")];
     body_selectedChatModel := selectedChatModel |}.

(** The sum of the abort delays of the requests in a log. *)
Fixpoint deadlines (l : Log) : Z :=
  match l with
  | [] => 0
  | EFetch _ deadline_ms :: rest => deadline_ms + deadlines rest
  | _ :: rest => deadlines rest
  end.

(** * Properties *)

Open Scope list_scope.

(** ** Running the monad *)

Lemma bind_normal {A B} (m : M A) (k : A -> M B) w l a l' :
  m w l = (Normal a, l') -> bind m k w l = k a w l'.
Proof. intros H. unfold bind. now rewrite H. Qed.

Lemma bind_throw {A B} (m : M A) (k : A -> M B) w l e l' :
  m w l = (Throw e, l') -> bind m k w l = (Throw e, l').
Proof. intros H. unfold bind. now rewrite H. Qed.

Lemma try_catch_normal {A} (m : M A) h w l a l' :
  m w l = (Normal a, l') -> try_catch m h w l = (Normal a, l').
Proof. intros H. unfold try_catch. now rewrite H. Qed.

Lemma try_catch_throw {A} (m : M A) h w l e l' :
  m w l = (Throw e, l') -> try_catch m h w l = h e w l'.
Proof. intros H. unfold try_catch. now rewrite H. Qed.

(** ** [extractMessageText] *)





(** ** The liveness probe *)

Ltac run_moe :=
  unfold try_catch, bind, ask, fetch, ret, throw, lift, await_json, await,
    console_error, console_warn; simpl.

Lemma timer_delay_health : timer_delay HEALTH_TIMEOUT_MS = HEALTH_TIMEOUT_MS.
Proof. reflexivity. Qed.

(** The delay of a timer is the delay asked for whenever that one is at
    least 1 and at most [TIMEOUT_MAX], and is never above a delay of at
    least 1. *)
Lemma timer_delay_le d : (1 <= d)%Z -> (timer_delay d <= d)%Z.
Proof.
  intros H. unfold timer_delay.
  destruct ((1 <=? d) && (d <=? TIMEOUT_MAX))%Z; lia.
Qed.

Lemma checkMOEAvailability_run w l :
  exists errs,
    checkMOEAvailability w l =
      (probe_answer (settle (probe_outcome w l) HEALTH_TIMEOUT_MS),
       (l ++ EFetch (health_request (config w)) HEALTH_TIMEOUT_MS :: errs)%list)
    /\ (errs = [] \/ exists e, errs = [EError "MOE health check failed:" e]).
Proof.
  unfold checkMOEAvailability, probe_outcome, probe_answer. run_moe.
  destruct (settle _ _) as [r|e] eqn:Hs; simpl.
  - destruct (ok r); simpl.
    + destruct (json r) as [[data|e]|]; simpl.
      * destruct (get data "status") as [st|e]; simpl.
        -- destruct (strict_eq_str st "healthy"); simpl.
           ++ destruct (get data "models_loaded") as [v|e]; simpl.
              ** exists []. split; [reflexivity | now left].
              ** exists [EError "MOE health check failed:" e].
                 rewrite <- app_assoc. split; [reflexivity | right; eauto].
           ++ exists []. split; [reflexivity | now left].
        -- exists [EError "MOE health check failed:" e].
           rewrite <- app_assoc. split; [reflexivity | right; eauto].
      * exists [EError "MOE health check failed:" e].
        rewrite <- app_assoc. split; [reflexivity | right; eauto].
      * exists []. split; [reflexivity | now left].
    + exists []. split; [reflexivity | now left].
  - exists [EError "MOE health check failed:" e].
    rewrite <- app_assoc. split; [reflexivity | right; eauto].
Qed.

Lemma checkMOEAvailability_answer w l :
  fst (checkMOEAvailability w l) =
    probe_answer (settle (probe_outcome w l) HEALTH_TIMEOUT_MS).
Proof.
  destruct (checkMOEAvailability_run w l) as (errs & -> & _). reflexivity.
Qed.

(** The probe never throws, and what it resolves with is its verdict. *)
Lemma probe_answer_cases s :
  probe_answer s = Normal (verdict s) \/
  (probe_answer s = Pending /\
   exists r, s = Normal r /\ ok r = true /\ json r = Pending).
Proof.
  unfold verdict, probe_answer.
  destruct s as [r|e]; simpl; auto.
  destruct (ok r) eqn:Hok; simpl; auto.
  destruct (json r) as [[data|e]|] eqn:Hj; auto.
  - destruct (get data "status") as [st|e]; auto.
    destruct (strict_eq_str st "healthy"); auto.
    destruct (get data "models_loaded"); auto.
  - right. split; [reflexivity|]. exists r. auto.
Qed.

Lemma probe_answer_normal s v : probe_answer s = Normal v -> verdict s = v.
Proof. intros H. unfold verdict. now rewrite H. Qed.

Lemma checkMOEAvailability_value w l :
  ~ stalls HEALTH_TIMEOUT_MS (probe_outcome w l) ->
  fst (checkMOEAvailability w l) =
    Normal (verdict (settle (probe_outcome w l) HEALTH_TIMEOUT_MS)).
Proof.
  intros Hns. rewrite checkMOEAvailability_answer.
  destruct (probe_answer_cases (settle (probe_outcome w l) HEALTH_TIMEOUT_MS))
    as [H | (_ & r & Hs & Hok & Hj)]; [exact H|].
  elim Hns. destruct (probe_outcome w l) as [t r'|t reason|]; simpl in Hs;
    try discriminate.
  - destruct (t <? timer_delay HEALTH_TIMEOUT_MS)%Z eqn:Ht; [|discriminate].
    injection Hs as ->. exists t, r. apply Z.ltb_lt in Ht. auto.
  - destruct (t <? timer_delay HEALTH_TIMEOUT_MS)%Z; discriminate.
Qed.

Lemma strict_eq_str_true v s : strict_eq_str v s = true <-> v = Str s.
Proof.
  destruct v; simpl; split; intros H; try discriminate.
  - apply String.eqb_eq in H. now subst.
  - injection H as ->. apply String.eqb_refl.
Qed.

(** A verdict other than [false] is the [models_loaded] of a timely ok
    response whose [status] is ["healthy"]. *)
Lemma verdict_cases o :
  verdict (settle o HEALTH_TIMEOUT_MS) = Bool false \/
  healthy_with (fun m => m = verdict (settle o HEALTH_TIMEOUT_MS)) o.
Proof.
  unfold verdict, probe_answer.
  destruct o as [t r|t reason|]; simpl; auto.
  - rewrite timer_delay_health.
    destruct (t <? HEALTH_TIMEOUT_MS)%Z eqn:Ht; simpl; auto.
    destruct (ok r) eqn:Hok; simpl; auto.
    destruct (json r) as [[data|e]|] eqn:Hj; auto.
    destruct (get data "status") as [st|e] eqn:Hst; auto.
    destruct (strict_eq_str st "healthy") eqn:Hh; auto.
    destruct (get data "models_loaded") as [v|e] eqn:Hm; auto.
    right. apply strict_eq_str_true in Hh. subst st.
    exists t, r, data, v. apply Z.ltb_lt in Ht. repeat split; assumption.
  - destruct (t <? timer_delay HEALTH_TIMEOUT_MS)%Z; auto.
Qed.

Lemma healthy_answer P o :
  healthy_with P o ->
  exists m, P m /\ probe_answer (settle o HEALTH_TIMEOUT_MS) = Normal m.
Proof.
  intros (t & r & data & m & -> & Ht & Hok & Hj & Hst & Hm & HP).
  exists m. split; [exact HP|]. unfold probe_answer. simpl.
  rewrite timer_delay_health. apply Z.ltb_lt in Ht. rewrite Ht. simpl.
  now rewrite Hok, Hj, Hst, Hm.
Qed.

Lemma verdict_healthy P o :
  healthy_with P o -> P (verdict (settle o HEALTH_TIMEOUT_MS)).
Proof.
  intros H. destruct (healthy_answer P o H) as (m & HP & Ha).
  now rewrite (probe_answer_normal _ _ Ha).
Qed.

Lemma healthy_with_impl (P Q : Value -> Prop) o :
  (forall m, P m -> Q m) -> healthy_with P o -> healthy_with Q o.
Proof.
  intros HPQ (t & r & data & m & H). exists t, r, data, m.
  repeat (destruct H as [? H]). repeat split; auto.
Qed.

Lemma verdict_true_iff o :
  verdict (settle o HEALTH_TIMEOUT_MS) = Bool true <-> affirmative o.
Proof.
  split.
  - intros H. destruct (verdict_cases o) as [Hf | Hh]; [congruence|].
    eapply healthy_with_impl; [|exact Hh]. intros m ->. exact H.
  - intros H. apply (verdict_healthy _ _ H).
Qed.

Lemma verdict_truthy_iff o :
  truthy (verdict (settle o HEALTH_TIMEOUT_MS)) = true
  <-> healthy_with (fun m => truthy m = true) o.
Proof.
  split.
  - intros H. destruct (verdict_cases o) as [Hf | Hh].
    + rewrite Hf in H. discriminate.
    + eapply healthy_with_impl; [|exact Hh]. intros m ->. exact H.
  - intros H. apply (verdict_healthy _ _ H).
Qed.

Lemma answer_probe_fails o :
  probe_fails o -> probe_answer (settle o HEALTH_TIMEOUT_MS) = Normal (Bool false).
Proof.
  intros H. unfold probe_answer. destruct H; simpl; rewrite ?timer_delay_health.
  - reflexivity.
  - apply Z.ltb_ge in H. now rewrite H.
  - destruct (t <? HEALTH_TIMEOUT_MS)%Z; reflexivity.
  - destruct (t <? HEALTH_TIMEOUT_MS)%Z; simpl; [|reflexivity]. now rewrite H.
  - destruct (t <? HEALTH_TIMEOUT_MS)%Z; simpl; [|reflexivity].
    rewrite H. now destruct (ok r).
  - destruct (t <? HEALTH_TIMEOUT_MS)%Z; simpl; [|reflexivity].
    rewrite H. destruct (ok r); simpl; [|reflexivity].
    destruct (get data "status") as [st|e] eqn:Hst; [|reflexivity].
    destruct (strict_eq_str st "healthy") eqn:Hh; [|reflexivity].
    apply strict_eq_str_true in Hh. now subst st.
Qed.

Lemma verdict_probe_fails o :
  probe_fails o -> verdict (settle o HEALTH_TIMEOUT_MS) = Bool false.
Proof. intros H. apply probe_answer_normal, answer_probe_fails, H. Qed.

Lemma answer_pending_iff o :
  probe_answer (settle o HEALTH_TIMEOUT_MS) = Pending <-> stalls HEALTH_TIMEOUT_MS o.
Proof.
  split.
  - intros H.
    destruct (probe_answer_cases (settle o HEALTH_TIMEOUT_MS))
      as [H' | (_ & r & Hs & Hok & Hj)]; [congruence|].
    destruct o as [t r'|t reason|]; simpl in Hs; try discriminate.
    + destruct (t <? timer_delay HEALTH_TIMEOUT_MS)%Z eqn:Ht; [|discriminate].
      injection Hs as ->. exists t, r. apply Z.ltb_lt in Ht. auto.
    + destruct (t <? timer_delay HEALTH_TIMEOUT_MS)%Z; discriminate.
  - intros (t & r & -> & Ht & Hok & Hj). unfold probe_answer. simpl.
    apply Z.ltb_lt in Ht. rewrite Ht. simpl. now rewrite Hok, Hj.
Qed.

(** C6, evaluated on the code. The service answers the probe in time with
    200 and the body [{ status: 'healthy' }]: the call resolves with
    [undefined], the value of the absent [models_loaded], where the claim and
    the comment of the function say [false]. And when the headers of a 200
    arrive in time while the body never completes, the call neither resolves
    nor throws: the timer was cleared before the body is read, the call stays
    at that [await], nothing is written and no verdict is given. *)
Theorem checkMOEAvailability_not_false :
  let w := service healthy_without_models Silent in
  ~ affirmative (probe_outcome w []) /\
  checkMOEAvailability w [] = (Normal Undefined, [probe_event w]) /\
  fst (checkMOEAvailability w []) <> Normal (Bool false) /\
  checkMOEAvailability (service stalled Silent) [] =
    (Pending, [probe_event (service stalled Silent)]).
Proof.
  intros w. split; [|split; [reflexivity|split; [discriminate|reflexivity]]].
  intros H. apply verdict_true_iff in H. discriminate.
Qed.

(** ** The processing call *)

(** [processMOEText] issues exactly one request and logs nothing else; a
    timely ok response with a parsable body is returned, every failure
    leaves the function as an [MOEError], and a body that stalls leaves it
    suspended. *)
Lemma processMOEText_run text o w l :
  let out := net w (fetch_count l) (process_request (config w) text o) in
  let d := MOE_TIMEOUT_MS (config w) in
  exists c,
    processMOEText text o w l =
      (c, (l ++ [EFetch (process_request (config w) text o) d])%list)
    /\ (call_fails d out -> exists m st, c = Throw (MOEError m st))
    /\ (forall t r v, out = Responds t r -> (t < timer_delay d)%Z -> ok r = true ->
          json r = Normal v -> c = Normal v)
    /\ (stalls d out <-> c = Pending).
Proof.
  intros out d. unfold processMOEText, stalls. run_moe. fold out d.
  destruct out as [t r|t reason|]; simpl.
  - destruct (t <? timer_delay d)%Z eqn:Ht; simpl.
    + destruct (ok r) eqn:Hok; simpl.
      * destruct (json r) as [[v|e]|] eqn:Hj; simpl.
        -- exists (Normal v). split; [reflexivity|]. split; [|split].
           ++ intros Hf. inversion Hf; subst; try congruence.
              apply Z.ltb_lt in Ht. lia.
           ++ intros t' r' v' [= <- <-] _ _ Hj'. congruence.
           ++ split; [|discriminate].
              intros (t' & r' & [= <- <-] & _ & _ & Hj'). congruence.
        -- destruct e; simpl; try destruct (String.eqb name "AbortError");
             (eexists; split; [reflexivity|]; split; [eauto|]);
             (split; [intros t' r' v' [= <- <-] _ _ Hj'; congruence|]);
             (split; [|discriminate]);
             intros (t' & r' & [= <- <-] & _ & _ & Hj'); congruence.
        -- exists Pending. split; [reflexivity|]. split; [|split].
           ++ intros Hf. inversion Hf; subst; try congruence.
              apply Z.ltb_lt in Ht. lia.
           ++ intros t' r' v' [= <- <-] _ _ Hj'. congruence.
           ++ split; [reflexivity|]. intros _. exists t, r.
              apply Z.ltb_lt in Ht. auto.
      * eexists. split; [reflexivity|]. split; [eauto|]. split.
        -- intros t' r' v' [= <- <-] _ Hok'. congruence.
        -- split; [|discriminate].
           intros (t' & r' & [= <- <-] & _ & Hok' & _). congruence.
    + eexists. split; [reflexivity|]. split; [eauto|]. split.
      * intros t' r' v' [= <- <-] Ht'. apply Z.ltb_ge in Ht. lia.
      * split; [|discriminate].
        intros (t' & r' & [= <- <-] & Ht' & _). apply Z.ltb_ge in Ht. lia.
  - destruct (t <? timer_delay d)%Z; simpl; eexists; (split; [reflexivity|]);
      (split; [eauto|]); (split; [intros; discriminate|]);
      (split; [|discriminate]); intros (t' & r' & H & _); discriminate.
  - eexists. split; [reflexivity|]. split; [eauto|].
    split; [intros; discriminate|]. split; [|discriminate].
    intros (t' & r' & H & _); discriminate.
Qed.

(** ** The entry point *)

(** [processMOERequest] as a decision tree over its three stages. *)
Lemma processMOERequest_eq messages opts w l :
  processMOERequest messages opts w l =
    let '(c0, l1) := checkMOEAvailability w l in
    match c0 with
    | Pending => (Pending, l1)
    | Done (Throw e) => (Done (Normal fallback_result), failed_log l1 e)
    | Done (Normal v) =>
        if negb (truthy v) then
          (Done (Normal fallback_result), unavailable_log l1)
        else
          match last_user_text messages with
          | Throw e => (Done (Normal fallback_result), failed_log l1 e)
          | Normal text =>
              let '(c1, l2) := processMOEText text no_options w l1 in
              match c1 with
              | Pending => (Pending, l2)
              | Done (Throw e) => (Done (Normal fallback_result), failed_log l2 e)
              | Done (Normal moeResponse) =>
                  match success_result moeResponse with
                  | Normal r => (Done (Normal r), l2)
                  | Throw e => (Done (Normal fallback_result), failed_log l2 e)
                  end
              end
          end
    end.
Proof.
  unfold processMOERequest, failed_log, unavailable_log.
  unfold try_catch at 1. unfold bind at 1.
  destruct (checkMOEAvailability w l) as [[[v|e]|] l1]; [|reflexivity|reflexivity].
  destruct (truthy v); simpl; [|reflexivity].
  unfold last_user_text, bind at 1, lift at 1.
  destruct (user_messages messages) as [users|e]; simpl; [|reflexivity].
  destruct (truthy (pop users)); simpl; [|reflexivity].
  unfold bind at 1, lift at 1.
  destruct (extractMessageText (pop users)) as [text|e]; simpl; [|reflexivity].
  unfold bind at 1.
  destruct (processMOEText text no_options w l1) as [[[resp|e]|] l2];
    [|reflexivity|reflexivity].
  unfold success_result. run_moe.
  destruct (get resp "result"); simpl; [|reflexivity].
  destruct (get resp "expert_used"); simpl; [|reflexivity].
  destruct (get resp "confidence"); simpl; [|reflexivity].
  destruct (get resp "processing_time"); simpl; reflexivity.
Qed.

Lemma fetch_count_app l l' : fetch_count (l ++ l') = fetch_count l + fetch_count l'.
Proof. unfold fetch_count. now rewrite filter_app, length_app. Qed.

Lemma probes_app c l l' : probes c (l ++ l') = probes c l + probes c l'.
Proof. unfold probes. now rewrite filter_app, length_app. Qed.

Lemma processing_calls_app c l l' :
  processing_calls c (l ++ l') = processing_calls c l + processing_calls c l'.
Proof. unfold processing_calls. now rewrite filter_app, length_app. Qed.

Lemma append_inj_l (b s t : string) : (b ++ s = b ++ t)%string -> s = t.
Proof. induction b as [|a b IH]; simpl; [auto | intros [= H]; auto]. Qed.

Lemma health_is_not_processing c :
  String.eqb (MOE_API_BASE_URL c ++ "/health")%string
             (MOE_API_BASE_URL c ++ "/process/sync")%string = false.
Proof.
  apply String.eqb_neq. intros H. apply append_inj_l in H. discriminate.
Qed.

Lemma probe_event_counts w :
  is_fetch (probe_event w) = true /\
  is_health_probe (config w) (probe_event w) = true /\
  is_processing_call (config w) (probe_event w) = false.
Proof.
  unfold probe_event. simpl. rewrite String.eqb_refl, health_is_not_processing. auto.
Qed.

Lemma processing_event_counts w text :
  is_fetch (processing_event w text) = true /\
  is_health_probe (config w) (processing_event w text) = false /\
  is_processing_call (config w) (processing_event w text) = true.
Proof.
  unfold processing_event. simpl. rewrite String.eqb_refl.
  rewrite String.eqb_sym, health_is_not_processing. auto.
Qed.

(** The log of a probe: the request, then at most one console line. *)
Lemma probe_log w l :
  exists errs,
    checkMOEAvailability w l =
      (probe_answer (settle (probe_outcome w l) HEALTH_TIMEOUT_MS),
       (l ++ probe_event w :: errs)%list)
    /\ fetch_count errs = 0
    /\ probes (config w) errs = 0
    /\ processing_calls (config w) errs = 0.
Proof.
  destruct (checkMOEAvailability_run w l) as (errs & H & [E | (e & E)]);
    exists errs; (split; [exact H|]); subst errs; repeat split; reflexivity.
Qed.

(** The ways a dispatch can go: the probe stalls; the probe says no; the
    probe says yes but no user text can be extracted; the processing endpoint
    is called once, and answers, fails or stalls. *)
Lemma processMOERequest_anatomy messages opts w l :
  let v := verdict (settle (probe_outcome w l) HEALTH_TIMEOUT_MS) in
  exists errs,
    fetch_count errs = 0 /\ probes (config w) errs = 0 /\
    processing_calls (config w) errs = 0 /\
    let l1 := l ++ probe_event w :: errs in
    (stalls HEALTH_TIMEOUT_MS (probe_outcome w l) /\
     processMOERequest messages opts w l = (Pending, l1))
    \/
    (~ stalls HEALTH_TIMEOUT_MS (probe_outcome w l) /\ truthy v = false /\
     processMOERequest messages opts w l = (Normal fallback_result, unavailable_log l1))
    \/
    (truthy v = true /\ exists e,
       last_user_text messages = Throw e /\
       processMOERequest messages opts w l = (Normal fallback_result, failed_log l1 e))
    \/
    (truthy v = true /\ exists text c,
       last_user_text messages = Normal text /\
       processMOEText text no_options w l1 = (c, l1 ++ [processing_event w text]) /\
       match c with
       | Pending =>
           processMOERequest messages opts w l =
             (Pending, l1 ++ [processing_event w text])
       | Done (Throw e) =>
           processMOERequest messages opts w l =
             (Normal fallback_result, failed_log (l1 ++ [processing_event w text]) e)
       | Done (Normal moeResponse) =>
           match success_result moeResponse with
           | Normal r =>
               processMOERequest messages opts w l =
                 (Normal r, l1 ++ [processing_event w text])
           | Throw e =>
               processMOERequest messages opts w l =
                 (Normal fallback_result, failed_log (l1 ++ [processing_event w text]) e)
           end
       end).
Proof.
  intros v. destruct (probe_log w l) as (errs & Hrun & Hf & Hp & Hc).
  exists errs. repeat (split; [assumption|]). intros l1.
  rewrite processMOERequest_eq, Hrun. fold l1.
  destruct (probe_answer_cases (settle (probe_outcome w l) HEALTH_TIMEOUT_MS))
    as [Ha | (Ha & _)].
  - rewrite Ha. fold v.
    assert (Hns : ~ stalls HEALTH_TIMEOUT_MS (probe_outcome w l)).
    { intros Hst. apply answer_pending_iff in Hst. congruence. }
    destruct (truthy v) eqn:Hv; simpl; [right; right | right; left; auto].
    destruct (last_user_text messages) as [text|e] eqn:Ht; [right | left; eauto].
    split; [reflexivity|].
    destruct (processMOEText_run text no_options w l1) as (c & Hpr & _).
    exists text, c. split; [reflexivity|]. split; [exact Hpr|].
    rewrite Hpr. destruct c as [[resp|e]|]; [|reflexivity|reflexivity].
    destruct (success_result resp); reflexivity.
  - left. rewrite Ha. split; [|reflexivity]. now apply answer_pending_iff.
Qed.

Lemma success_result_usedFallback moeResponse r :
  success_result moeResponse = Normal r ->
  get r "usedFallback" = Normal (Bool false).
Proof.
  unfold success_result.
  destruct (get moeResponse "result"); simpl; [|discriminate].
  destruct (get moeResponse "expert_used"); simpl; [|discriminate].
  destruct (get moeResponse "confidence"); simpl; [|discriminate].
  destruct (get moeResponse "processing_time"); simpl; [|discriminate].
  intros [= <-]. reflexivity.
Qed.

Lemma fetch_count_after_probe w l errs :
  fetch_count errs = 0 ->
  fetch_count (l ++ probe_event w :: errs) = fetch_count (l ++ [probe_event w]).
Proof.
  intros H.
  change (probe_event w :: errs) with ([probe_event w] ++ errs).
  rewrite !fetch_count_app, H. lia.
Qed.

(** No exception leaves a dispatch; what it returns is the fallback object
    or an object built from an answer of the service; and it stays suspended
    only on a body that stalls, of the probe or of the processing call. *)
Lemma processMOERequest_completion messages opts w l :
  match processMOERequest messages opts w l with
  | (Done (Normal r), _) =>
      r = fallback_result \/ exists moeResponse, success_result moeResponse = Normal r
  | (Done (Throw _), _) => False
  | (Pending, _) =>
      stalls HEALTH_TIMEOUT_MS (probe_outcome w l) \/
      exists text,
        last_user_text messages = Normal text /\
        stalls (MOE_TIMEOUT_MS (config w))
               (processing_outcome w (l ++ [probe_event w]) text)
  end.
Proof.
  destruct (processMOERequest_anatomy messages opts w l)
    as (errs & Hf & _ & _ &
        [(Hst & H) | [(_ & _ & H) | [(_ & e & _ & H) | (_ & text & c & Ht & Hpr & H)]]]).
  - rewrite H. now left.
  - rewrite H. now left.
  - rewrite H. now left.
  - destruct c as [[resp|e]|].
    + destruct (success_result resp) eqn:Hs; rewrite H; eauto.
    + rewrite H. now left.
    + rewrite H. right. exists text. split; [exact Ht|].
      destruct (processMOEText_run text no_options w (l ++ probe_event w :: errs))
        as (c' & Hpr' & _ & _ & Hstall).
      fold (processing_event w text) in Hpr'.
      assert (Hc : c' = Pending) by congruence.
      apply Hstall in Hc. unfold processing_outcome.
      now rewrite <- (fetch_count_after_probe w l errs Hf).
Qed.

Lemma bodies_settle_no_stall w d n req :
  bodies_settle w -> ~ stalls d (net w n req).
Proof.
  intros Hb (t & r & Hn & _ & _ & Hj). exact (Hb n req t r Hn Hj).
Qed.

(** Where no body stalls the dispatch returns. *)
Lemma processMOERequest_returns messages opts w l :
  bodies_settle w ->
  exists r l',
    processMOERequest messages opts w l = (Normal r, l') /\
    (r = fallback_result \/ exists moeResponse, success_result moeResponse = Normal r).
Proof.
  intros Hb. pose proof (processMOERequest_completion messages opts w l) as H.
  destruct (processMOERequest messages opts w l) as [[[r|e]|] l'].
  - eauto.
  - contradiction.
  - exfalso. destruct H as [H | (text & _ & H)];
      revert H; now apply bodies_settle_no_stall.
Qed.

(** ** Failures are absorbed, stalled bodies are not *)

(** A failed processing call ends in the fallback object, after exactly that
    one call. The call is the request that follows the probe, hence the
    outcome the network holds for the log extended by the probe. *)
Lemma failed_call_falls_back messages opts w l text :
  truthy (verdict (settle (probe_outcome w l) HEALTH_TIMEOUT_MS)) = true ->
  last_user_text messages = Normal text ->
  call_fails (MOE_TIMEOUT_MS (config w))
             (processing_outcome w (l ++ [probe_event w]) text) ->
  exists errs e,
    fetch_count errs = 0 /\ probes (config w) errs = 0 /\
    processing_calls (config w) errs = 0 /\
    processMOERequest messages opts w l =
      (Normal fallback_result,
       failed_log ((l ++ probe_event w :: errs) ++ [processing_event w text]) e).
Proof.
  intros Hv Ht Hfail.
  destruct (processMOERequest_anatomy messages opts w l)
    as (errs & Hf & Hp & Hc &
        [(Hst & _) | [(_ & Hv' & _) | [(_ & e & Ht' & _) | (_ & text' & c & Ht' & Hpr & H)]]]).
  - apply answer_pending_iff in Hst. unfold verdict in Hv. rewrite Hst in Hv. discriminate.
  - congruence.
  - congruence.
  - assert (text' = text) by congruence. subst text'.
    destruct (processMOEText_run text no_options w (l ++ probe_event w :: errs))
      as (c' & Hpr' & Hthrow & _).
    fold (processing_event w text) in Hpr'.
    assert (c' = c) by congruence. subst c'.
    rewrite fetch_count_after_probe in Hthrow by assumption.
    destruct (Hthrow Hfail) as (m & st & ->).
    exists errs, (MOEError m st). auto.
Qed.

(** C1. The claim fails on the code at a stalled body: [/health] answers its
    headers in time (200) and the body never completes, or the probe is
    healthy and [/process/sync] does the same. The abort timer is cleared
    once the headers are in (lines 52 and 93), the reading of the body is
    under no deadline, and [processMOERequest] neither returns an object nor
    throws: it stays suspended, after the probe in the first case and after
    the processing call in the second. *)
Theorem processMOERequest_hangs_on_stalled_body :
  processMOERequest hello Undefined (service stalled Silent) [] =
    (Pending, [probe_event (service stalled Silent)]) /\
  processMOERequest hello Undefined (service up stalled) [] =
    (Pending, [probe_event (service up stalled);
               processing_event (service up stalled) (Str "hello")]).
Proof. split; reflexivity. Qed.


(** ** An unavailable service *)

Lemma requests_app l l' : requests (l ++ l') = requests l ++ requests l'.
Proof.
  induction l as [|ev l IH]; [reflexivity|].
  destruct ev; simpl; now rewrite IH.
Qed.

(** The verdict of a probe that has run is the one its outcome decides. *)
Lemma probe_result w l v l1 :
  checkMOEAvailability w l = (Normal v, l1) ->
  v = verdict (settle (probe_outcome w l) HEALTH_TIMEOUT_MS) /\
  exists errs, l1 = l ++ probe_event w :: errs /\
    fetch_count errs = 0 /\ probes (config w) errs = 0 /\
    processing_calls (config w) errs = 0 /\ requests errs = [].
Proof.
  intros H. destruct (checkMOEAvailability_run w l) as (errs & Hrun & Herrs).
  rewrite Hrun in H. injection H as Hv <-. split.
  { unfold verdict. now rewrite Hv. }
  exists errs. split; [reflexivity|].
  destruct Herrs as [-> | (e & ->)]; repeat split; reflexivity.
Qed.

Lemma unavailable_dispatch messages opts w l v l1 :
  checkMOEAvailability w l = (Normal v, l1) ->
  truthy v = false ->
  processMOERequest messages opts w l = (Normal fallback_result, unavailable_log l1).
Proof.
  intros Hc Hv. rewrite processMOERequest_eq, Hc, Hv. reflexivity.
Qed.

(** C5. When the health check reports the service unusable, the dispatch
    issues no request but the probe ([processMOEText] is not invoked, the
    processing endpoint is not called) and returns at once, after the
    warning, an object whose [usedFallback] is [true]. *)
Theorem no_call_when_unavailable :
  forall (messages opts : Value) (w : World) (l l1 : Log) (v : Value),
    checkMOEAvailability w l = (Normal v, l1) ->
    truthy v = false ->
    exists r l',
      processMOERequest messages opts w l = (Normal r, l') /\
      get r "usedFallback" = Normal (Bool true) /\
      l' = unavailable_log l1 /\
      requests l' = requests l ++ [health_request (config w)] /\
      processing_calls (config w) l' = processing_calls (config w) l.
Proof.
  intros messages opts w l l1 v Hc Hv.
  exists fallback_result, (unavailable_log l1).
  split; [eapply unavailable_dispatch; eauto|].
  split; [reflexivity|]. split; [reflexivity|].
  destruct (probe_result _ _ _ _ Hc) as (_ & errs & -> & _ & _ & Hp & Hr).
  unfold unavailable_log. split.
  - rewrite !requests_app. simpl. rewrite Hr, app_nil_r. reflexivity.
  - rewrite !processing_calls_app.
    change (probe_event w :: errs) with ([probe_event w] ++ errs).
    rewrite processing_calls_app, Hp.
    unfold processing_calls at 2 3. simpl.
    rewrite health_is_not_processing. simpl. lia.
Qed.

(** The service is still loading its models: one request, the probe. *)
Lemma no_call_when_unavailable_witness :
  exists r l',
    processMOERequest hello (forced "byt5") (service loading routed_to_longformer) []
      = (Normal r, l') /\
    get r "usedFallback" = Normal (Bool true) /\
    requests l' = [health_request default_config] /\
    processing_calls default_config l' = 0.
Proof.
  destruct (no_call_when_unavailable hello (forced "byt5")
              (service loading routed_to_longformer) []
              [probe_event (service loading routed_to_longformer)] (Bool false))
    as (r & l' & Hrun & Hfb & _ & Hreq & Hcalls).
  - reflexivity.
  - reflexivity.
  - exists r, l'. repeat split; assumption.
Defined.

(** C4, as the code has it. When the health check reports the service
    unavailable, the object returned is exactly [{ usedFallback: true }]:
    [usedFallback] is [true] and the object has no [expertUsed], no
    [confidence] and no [error] field; the condition is recorded on the
    console only, by the warning that ends the log. *)
Theorem unavailable_result_shape :
  forall (messages opts : Value) (w : World) (l l1 : Log) (v : Value),
    checkMOEAvailability w l = (Normal v, l1) ->
    truthy v = false ->
    exists r,
      processMOERequest messages opts w l =
        (Normal r, l1 ++ [EWarn "MOE API unavailable, falling back to default provider"]) /\
      r = Obj [("usedFallback", Bool true)] /\
      get r "usedFallback" = Normal (Bool true) /\
      get r "expertUsed" = Normal Undefined /\
      get r "confidence" = Normal Undefined /\
      get r "error" = Normal Undefined.
Proof.
  intros messages opts w l l1 v Hc Hv. exists fallback_result.
  split; [eapply unavailable_dispatch; eauto|]. repeat split.
Qed.

Lemma unavailable_result_shape_witness :
  exists r,
    processMOERequest hello Undefined (service refused refused) [] =
      (Normal r,
       [probe_event (service refused refused);
        EError "MOE health check failed:" (TypeError "fetch failed");
        EWarn "MOE API unavailable, falling back to default provider"]) /\
    r = Obj [("usedFallback", Bool true)].
Proof.
  destruct (unavailable_result_shape hello Undefined (service refused refused) []
              [probe_event (service refused refused);
               EError "MOE health check failed:" (TypeError "fetch failed")]
              (Bool false))
    as (r & Hrun & Hr & _).
  - reflexivity.
  - reflexivity.
  - exists r. split; assumption.
Defined.

(** C4 as stated fails: with every expert unreachable the object returned
    has neither [expertUsed = "fallback"] nor [confidence = 0]. *)
Lemma unavailable_result_counterexample :
  exists r l',
    processMOERequest hello Undefined (service refused refused) [] = (Normal r, l') /\
    get r "usedFallback" = Normal (Bool true) /\
    get r "expertUsed" <> Normal (Str "fallback") /\
    get r "confidence" <> Normal (Num (S754_zero false)) /\
    get r "error" = Normal Undefined.
Proof.
  eexists. eexists. split; [reflexivity|].
  repeat split; simpl; discriminate.
Qed.


(** ** One processing call per dispatch *)

Lemma processing_calls_probe w errs :
  processing_calls (config w) errs = 0 ->
  processing_calls (config w) (probe_event w :: errs) = 0.
Proof.
  intros H. change (probe_event w :: errs) with ([probe_event w] ++ errs).
  rewrite processing_calls_app, H. unfold processing_calls. simpl.
  now rewrite health_is_not_processing.
Qed.

Lemma processing_calls_event w text :
  processing_calls (config w) [processing_event w text] = 1.
Proof. unfold processing_calls. simpl. now rewrite String.eqb_refl. Qed.

Lemma processing_calls_failed c l e :
  processing_calls c (failed_log l e) = processing_calls c l.
Proof.
  unfold failed_log. rewrite processing_calls_app.
  unfold processing_calls at 2. simpl. lia.
Qed.

Lemma processing_calls_unavailable c l :
  processing_calls c (unavailable_log l) = processing_calls c l.
Proof.
  unfold unavailable_log. rewrite processing_calls_app.
  unfold processing_calls at 2. simpl. lia.
Qed.

Lemma processing_calls_after_probe w l errs :
  processing_calls (config w) errs = 0 ->
  processing_calls (config w) (l ++ probe_event w :: errs) = processing_calls (config w) l.
Proof.
  intros H. rewrite processing_calls_app, processing_calls_probe by assumption. lia.
Qed.

(** The number of processing calls a dispatch adds to the log. *)
Lemma processing_calls_of_dispatch messages opts w l :
  exists n,
    processing_calls (config w) (snd (processMOERequest messages opts w l)) =
      processing_calls (config w) l + n /\ n <= 1.
Proof.
  destruct (processMOERequest_anatomy messages opts w l)
    as (errs & _ & _ & Hc &
        [(_ & H) | [(_ & _ & H) | [(_ & e & _ & H) | (_ & text & c & _ & _ & H)]]]).
  - exists 0. rewrite H. simpl.
    rewrite processing_calls_after_probe by assumption. lia.
  - exists 0. rewrite H. simpl.
    rewrite processing_calls_unavailable, processing_calls_after_probe by assumption.
    lia.
  - exists 0. rewrite H. simpl.
    rewrite processing_calls_failed, processing_calls_after_probe by assumption.
    lia.
  - exists 1. split; [|lia].
    destruct c as [[resp|e]|]; [destruct (success_result resp)| |]; rewrite H; simpl;
      rewrite ?processing_calls_failed, processing_calls_app,
        processing_calls_after_probe, processing_calls_event by assumption;
      reflexivity.
Qed.

(** C8. A dispatch invokes the processing endpoint at most twice (in fact
    at most once: a failed call is never retried), and a failed call goes
    straight to the degraded fallback result, the log showing that single
    call. *)
Theorem at_most_one_retry :
  forall (messages opts : Value) (w : World) (l : Log),
    let c := config w in
    let l' := snd (processMOERequest messages opts w l) in
    processing_calls c l' <= processing_calls c l + 2 /\
    processing_calls c l' <= processing_calls c l + 1 /\
    (forall text,
       truthy (verdict (settle (probe_outcome w l) HEALTH_TIMEOUT_MS)) = true ->
       last_user_text messages = Normal text ->
       call_fails (MOE_TIMEOUT_MS c) (processing_outcome w (l ++ [probe_event w]) text) ->
       fst (processMOERequest messages opts w l) = Normal fallback_result /\
       processing_calls c l' = processing_calls c l + 1).
Proof.
  intros messages opts w l. cbv zeta.
  destruct (processing_calls_of_dispatch messages opts w l) as (n & Hn & Hle).
  split; [lia|]. split; [lia|].
  intros text Hv Ht Hfail.
  destruct (failed_call_falls_back messages opts w l text Hv Ht Hfail)
    as (errs & e & _ & _ & Hc & H).
  rewrite H. simpl. split; [reflexivity|].
  rewrite processing_calls_failed, processing_calls_app,
    processing_calls_after_probe, processing_calls_event by assumption.
  reflexivity.
Qed.

(** The service is up and the processing call times out: one call, then the
    fallback. *)
Lemma at_most_one_retry_witness :
  fst (processMOERequest hello Undefined (service up Silent) []) = Normal fallback_result /\
  processing_calls default_config
    (snd (processMOERequest hello Undefined (service up Silent) [])) = 1.
Proof.
  apply (proj2 (proj2 (at_most_one_retry hello Undefined (service up Silent) []))
           (Str "hello")).
  - reflexivity.
  - reflexivity.
  - apply fails_silent.
Defined.

(** ** The expert named by the caller *)

(** The options of the caller do not reach the body of the function. *)
Lemma options_not_read messages opts opts' :
  processMOERequest messages opts = processMOERequest messages opts'.
Proof. reflexivity. Qed.

(** The three MOE model ids of the provider run the same middleware: the
    expert in the id changes nothing. *)
Lemma expert_models_behave_alike chat_model :
  myProvider chat_model "moe-expert-byt5" = myProvider chat_model "moe-auto" /\
  myProvider chat_model "moe-expert-longformer" = myProvider chat_model "moe-auto".
Proof. split; reflexivity. Qed.

(** C3, evaluated on the code. The caller selects the byt5 expert and the
    service is healthy; the request that reaches the processing endpoint
    carries empty options, no expert is named in it, the service routes by
    itself, and the result reports the expert the service chose. *)
Theorem forced_expert_not_forwarded :
  let w := service up routed_to_longformer in
  exists r l',
    processMOERequest hello (forced "byt5") w [] = (Normal r, l') /\
    requests l' =
      [health_request default_config;
       {| url := "http://localhost:8000/process/sync";
          method := POST;
          headers := [("Content-Type", "application/json")];
          body := Some (Obj [("text", Str "hello");
                             ("task", Str "process");
                             ("options", Obj [])]) |}] /\
    get r "expertUsed" = Normal (Str "longformer") /\
    get r "confidence" = Normal (number 3 (-2)) /\
    get r "forced" = Normal Undefined /\
    processMOERequest hello (forced "byt5") w [] = processMOERequest hello Undefined w [].
Proof.
  intros w. eexists. eexists. split; [reflexivity|].
  repeat split.
Qed.

(** ** An unknown expert *)

Lemma stalls_not_settle w d n req :
  stalls d (net w n req) -> ~ bodies_settle w.
Proof. intros Hst Hb. exact (bodies_settle_no_stall w d n req Hb Hst). Qed.

(** A dispatch surfaces no error: it returns the fallback object or an
    object built from an answer of the service, unless a body stalls. *)
Lemma processMOERequest_cases messages opts w l :
  exists l',
    (processMOERequest messages opts w l = (Pending, l') /\ ~ bodies_settle w) \/
    (exists r,
       processMOERequest messages opts w l = (Normal r, l') /\
       (r = fallback_result \/
        exists moeResponse, success_result moeResponse = Normal r)).
Proof.
  pose proof (processMOERequest_completion messages opts w l) as H.
  destruct (processMOERequest messages opts w l) as [[[r|e]|] l']; exists l'.
  - right. eauto.
  - contradiction.
  - left. split; [reflexivity|].
    destruct H as [H | (text & _ & H)]; eapply stalls_not_settle; exact H.
Qed.

(** C2, as the code has it. Whatever expert the options name, known to the
    provider or not, [processMOERequest] surfaces no error: it returns the
    fallback object or an object built from an answer of the service, and
    the middleware then answers with the text of the service or hands over
    to [generate]. The one run that returns nothing is the run suspended on
    a body that never completes, which throws nothing either. *)
Theorem unknown_expert_not_surfaced :
  forall (expertModel : string) (messages : Value) (w : World) (l : Log),
    (exists l',
       (processMOERequest messages (forced expertModel) w l = (Pending, l') /\
        ~ bodies_settle w) \/
       (exists r,
          processMOERequest messages (forced expertModel) w l = (Normal r, l') /\
          (r = fallback_result \/
           exists moeResponse, success_result moeResponse = Normal r))) /\
    (forall chat_model generate : M Value,
       exists l',
         (moe_middleware (moeProvider chat_model) (Some expertModel) messages generate w l
            = (Pending, l') /\ ~ bodies_settle w) \/
         moe_middleware (moeProvider chat_model) (Some expertModel) messages generate w l
           = generate w l' \/
         exists text,
           moe_middleware (moeProvider chat_model) (Some expertModel) messages generate w l
             = (Normal (Obj [("text", text)]), l')).
Proof.
  intros expertModel messages w l.
  destruct (processMOERequest_cases messages (forced expertModel) w l)
    as (l' & [(Hrun & Hns) | (r & Hrun & Hr)]).
  - split; [eauto|].
    intros chat_model generate. exists l'. left. split; [|exact Hns].
    unfold moe_middleware, moeProvider, createMOEProvider. simpl.
    fold (forced expertModel). unfold bind at 1. now rewrite Hrun.
  - split; [eauto 6|].
    intros chat_model generate. exists l'. right.
    unfold moe_middleware, moeProvider, createMOEProvider. simpl.
    fold (forced expertModel).
    unfold bind, lift, ret. rewrite Hrun.
    destruct Hr as [-> | (resp & Hs)].
    + left. reflexivity.
    + right. unfold success_result in Hs.
      destruct (get resp "result") as [res|]; simpl in Hs; [|discriminate].
      destruct (get resp "expert_used"); simpl in Hs; [|discriminate].
      destruct (get resp "confidence"); simpl in Hs; [|discriminate].
      destruct (get resp "processing_time"); simpl in Hs; [|discriminate].
      injection Hs as <-. exists res. reflexivity.
Qed.

(** C2 as stated fails: an expert that the provider does not know is named,
    the service is unreachable, and the caller receives the fallback object,
    not an error. *)
Lemma unknown_expert_counterexample :
  ~ In "t5-xxl" known_experts /\
  fst (processMOERequest hello (forced "t5-xxl") (service refused Silent) [])
    = Normal fallback_result /\
  (forall e : Exn,
     fst (processMOERequest hello (forced "t5-xxl") (service refused Silent) [])
       <> Throw e).
Proof.
  split; [|split].
  - simpl. intros [H | [H | []]]; discriminate.
  - reflexivity.
  - intros e. discriminate.
Qed.

(** ** No cache of health verdicts *)

Lemma probes_after_probe w l errs :
  probes (config w) errs = 0 ->
  probes (config w) (l ++ probe_event w :: errs) = probes (config w) l + 1.
Proof.
  intros H. change (probe_event w :: errs) with ([probe_event w] ++ errs).
  rewrite !probes_app, H. unfold probes at 2. simpl.
  rewrite String.eqb_refl. simpl. lia.
Qed.

(** C7, as the code has it. No health verdict is kept: whatever was probed
    and answered before, every availability query issues exactly one
    outbound probe and answers from the outcome of that probe alone: with
    the verdict that outcome decides, or not at all where the body of that
    probe stalls. *)
Theorem every_query_probes :
  forall (w : World) (l : Log),
    probes (config w) (snd (checkMOEAvailability w l)) = probes (config w) l + 1 /\
    fst (checkMOEAvailability w l) =
      probe_answer (settle (probe_outcome w l) HEALTH_TIMEOUT_MS) /\
    (fst (checkMOEAvailability w l) =
       Normal (verdict (settle (probe_outcome w l) HEALTH_TIMEOUT_MS)) \/
     fst (checkMOEAvailability w l) = Pending /\
     stalls HEALTH_TIMEOUT_MS (probe_outcome w l)).
Proof.
  intros w l. destruct (probe_log w l) as (errs & Hrun & _ & Hp & _).
  rewrite Hrun. simpl. split; [now apply probes_after_probe|].
  split; [reflexivity|].
  destruct (probe_answer_cases (settle (probe_outcome w l) HEALTH_TIMEOUT_MS))
    as [Ha | (Ha & _)].
  - left. exact Ha.
  - right. split; [exact Ha|]. now apply answer_pending_iff.
Qed.

(** C7 as stated fails: a query that follows a healthy verdict at once
    issues a second probe, and so do the gate of the chat route and the
    dispatch it precedes within one request. *)
Lemma health_cache_counterexample :
  let w := service up routed_to_longformer in
  (exists l1 l2,
     checkMOEAvailability w [] = (Normal (Bool true), l1) /\
     checkMOEAvailability w l1 = (Normal (Bool true), l2) /\
     probes default_config l1 = 1 /\
     probes default_config l2 = 2) /\
  probes default_config
    (snd (run (route_moe_gate "moe-expert-byt5" ;;
               processMOERequest hello (forced "byt5")) w)) = 2.
Proof.
  intros w. split.
  - eexists. eexists. split; [reflexivity|]. split; [reflexivity|].
    split; reflexivity.
  - reflexivity.
Qed.

(** ** Concurrent callers *)

Section Concurrency.

Variable w : World.

(** A lone call resumed three times is the function itself: the same log,
    and the same answer where the function answers; where the function stays
    suspended on the body, so does the call. *)
Lemma single_caller_agrees l :
  let k := fetch_count l in
  exists l',
    snd (checkMOEAvailability w l) = l' /\
    match fst (checkMOEAvailability w l) with
    | Done (Normal v) => exec w [0; 0; 0] ([Called], l) = ([Settled k v], l')
    | Done (Throw _) => False
    | Pending => exists r, exec w [0; 0; 0] ([Called], l) = ([AwaitingJson k r], l')
    end.
Proof.
  unfold exec, advance, checkMOEAvailability. run_moe.
  destruct (settle _ _) as [r|e]; simpl; [|eauto].
  destruct (ok r); simpl; [|eauto].
  unfold read_health.
  destruct (json r) as [[data|e]|]; simpl; [|eauto|eauto].
  destruct (get data "status") as [st|e]; simpl; [|eauto].
  destruct (strict_eq_str st "healthy"); simpl; [|eauto].
  destruct (get data "models_loaded") as [v|e]; simpl; eauto.
Qed.

(** What resuming a call that has not started does. *)
Lemma resume_called l :
  resume w Called l = (AwaitingFetch (fetch_count l), l ++ [probe_event w]).
Proof. reflexivity. Qed.

(** Resuming a started call issues no request and keeps the call on the
    request it has issued, at a point that the outcome of that request
    allows. *)
Lemma resume_started c l k :
  started c = true ->
  call_ok w k c ->
  let c' := fst (resume w c l) in
  let l' := snd (resume w c l) in
  started c' = true /\ request_of c' = request_of c /\ call_ok w k c' /\
  probes (config w) l' = probes (config w) l /\
  fetch_count l' = fetch_count l /\
  requests l' = requests l.
Proof.
  destruct c as [|n|n r|n v]; simpl; [discriminate| | |]; intros _ Hok.
  - destruct (settle (net w n (health_request (config w))) HEALTH_TIMEOUT_MS)
      as [r|e] eqn:Hs; simpl.
    + destruct (ok r) eqn:Hr; simpl.
      * repeat split; auto.
      * repeat split; auto. unfold nth_probe_outcome. rewrite Hs.
        unfold probe_answer. now rewrite Hr.
    + rewrite probes_app, fetch_count_app, requests_app. simpl.
      repeat split; auto; try (unfold probes, fetch_count; simpl; lia).
      * unfold nth_probe_outcome. now rewrite Hs.
      * apply app_nil_r.
  - destruct Hok as (Hn & Hs & Hr). unfold read_health.
    assert (Hlog : forall e,
              probes (config w) (l ++ [EError "MOE health check failed:" e])
                = probes (config w) l /\
              fetch_count (l ++ [EError "MOE health check failed:" e])
                = fetch_count l /\
              requests (l ++ [EError "MOE health check failed:" e]) = requests l).
    { intros e. rewrite probes_app, fetch_count_app, requests_app. simpl.
      repeat split; try (unfold probes, fetch_count; simpl; lia). apply app_nil_r. }
    destruct (json r) as [[data|e]|] eqn:Hj; simpl.
    + destruct (get data "status") as [st|e] eqn:Hst; simpl.
      * destruct (strict_eq_str st "healthy") eqn:Hh; simpl.
        -- destruct (get data "models_loaded") as [v|e] eqn:Hm; simpl.
           ++ repeat split; auto. rewrite Hs. unfold probe_answer.
              now rewrite Hr, Hj, Hst, Hh, Hm.
           ++ repeat split; auto; try apply Hlog. rewrite Hs. unfold probe_answer.
              now rewrite Hr, Hj, Hst, Hh, Hm.
        -- repeat split; auto. rewrite Hs. unfold probe_answer.
           now rewrite Hr, Hj, Hst, Hh.
      * repeat split; auto; try apply Hlog. rewrite Hs. unfold probe_answer.
        now rewrite Hr, Hj, Hst.
    + repeat split; auto; try apply Hlog. rewrite Hs. unfold probe_answer.
      now rewrite Hr, Hj.
    + repeat split; auto.
  - repeat split; auto; apply Hok.
Qed.

Lemma call_ok_mono k k' c : k <= k' -> call_ok w k c -> call_ok w k' c.
Proof.
  intros Hk. destruct c as [|n|n r|n v]; simpl; auto.
  - lia.
  - intros (Hn & H). split; [lia | exact H].
  - intros (Hn & H). split; [lia | exact H].
Qed.

Lemma call_ok_request k c n : call_ok w k c -> request_of c = Some n -> n < k.
Proof.
  destruct c as [|m|m r|m v]; simpl; try discriminate;
    intros H [= <-]; try exact H; apply H.
Qed.

Lemma replace_length {A} i (x : A) l : List.length (replace i x l) = List.length l.
Proof.
  revert i. induction l as [|y l IH]; intros [|i]; simpl; auto.
Qed.

Lemma nth_error_replace {A} i j (x y : A) l :
  nth_error (replace i x l) j = Some y ->
  (i = j /\ y = x /\ exists z, nth_error l i = Some z) \/
  (i <> j /\ nth_error l j = Some y).
Proof.
  revert i j. induction l as [|z l IH]; intros [|i] [|j]; simpl; try discriminate.
  - intros [= <-]. left. eauto.
  - intros H. right. split; [lia | exact H].
  - intros H. right. split; [lia | exact H].
  - intros H. destruct (IH i j H) as [(-> & -> & Hz) | (Hij & Hy)].
    + left. auto.
    + right. split; [lia | exact Hy].
Qed.

Lemma replace_count i c c' cs :
  nth_error cs i = Some c ->
  count_started (replace i c' cs) + b2n (started c) =
  count_started cs + b2n (started c').
Proof.
  unfold count_started. revert i.
  induction cs as [|d cs IH]; intros [|i]; simpl; try discriminate.
  - intros [= ->]. destruct (started c), (started c'); simpl; lia.
  - intros H. specialize (IH i H). destruct (started d); simpl; lia.
Qed.

Lemma advance_coherent s i : coherent w s -> coherent w (advance w s i).
Proof.
  unfold coherent, advance. destruct s as [cs l]. simpl.
  intros (Hp & Hf & Hr & Hok & Hinj).
  destruct (nth_error cs i) as [c|] eqn:Hn; [|auto].
  pose proof (Hok i c Hn) as Hc.
  pose proof (replace_count i c (fst (resume w c l)) cs Hn) as Hcount.
  destruct (started c) eqn:Hst.
  - destruct (resume_started c l (fetch_count l) Hst Hc)
      as (Hst' & Hreq & Hok' & Hp' & Hf' & Hr').
    destruct (resume w c l) as [c' l']. simpl in *.
    rewrite Hst' in Hcount. simpl in Hcount.
    assert (Hsame : count_started (replace i c' cs) = count_started cs) by lia.
    rewrite Hsame, Hp', Hf', Hr'. repeat (split; [assumption|]). split.
    + intros j d Hj.
      destruct (nth_error_replace _ _ _ _ _ Hj) as [(_ & -> & _) | (_ & Hd)];
        [exact Hok' | exact (Hok j d Hd)].
    + assert (Hback : forall j d, nth_error (replace i c' cs) j = Some d ->
                exists d0, nth_error cs j = Some d0 /\ request_of d0 = request_of d).
      { intros j d Hj.
        destruct (nth_error_replace _ _ _ _ _ Hj) as [(<- & -> & _) | (_ & Hd)]; eauto. }
      intros a b ca cb n Ha Hb Hra Hrb.
      destruct (Hback a ca Ha) as (ca0 & Ha0 & Ea).
      destruct (Hback b cb Hb) as (cb0 & Hb0 & Eb).
      apply (Hinj a b ca0 cb0 n); congruence.
  - destruct c; try discriminate. rewrite resume_called in *. simpl in *.
    assert (Hnew : count_started (replace i (AwaitingFetch (fetch_count l)) cs)
                   = count_started cs + 1) by lia.
    rewrite Hnew, probes_app, fetch_count_app, requests_app, Hp, Hf, Hr.
    split. { unfold probes. simpl. rewrite String.eqb_refl. reflexivity. }
    split. { reflexivity. }
    split. { simpl. rewrite Nat.add_1_r. simpl. apply eq_sym, repeat_cons. }
    split.
    + intros j d Hj.
      destruct (nth_error_replace _ _ _ _ _ Hj) as [(_ & -> & _) | (_ & Hd)].
      * simpl. change (fetch_count [probe_event w]) with 1. lia.
      * apply (call_ok_mono (count_started cs)); [lia|].
        rewrite <- Hf. exact (Hok j d Hd).
    + intros a b ca cb n Ha Hb Hra Hrb.
      destruct (nth_error_replace _ _ _ _ _ Ha) as [(<- & -> & _) | (Hia & Ha0)];
        destruct (nth_error_replace _ _ _ _ _ Hb) as [(<- & -> & _) | (Hib & Hb0)].
      * reflexivity.
      * simpl in Hra. injection Hra as <-.
        pose proof (call_ok_request _ _ _ (Hok b cb Hb0) Hrb). lia.
      * simpl in Hrb. injection Hrb as <-.
        pose proof (call_ok_request _ _ _ (Hok a ca Ha0) Hra). lia.
      * exact (Hinj a b ca cb n Ha0 Hb0 Hra Hrb).
Qed.

Lemma advance_length s i :
  List.length (fst (advance w s i)) = List.length (fst s).
Proof.
  unfold advance. destruct (nth_error (fst s) i); [|reflexivity].
  destruct (resume w c (snd s)). simpl. apply replace_length.
Qed.

Lemma exec_coherent schedule s : coherent w s -> coherent w (exec w schedule s).
Proof.
  unfold exec. revert s.
  induction schedule as [|i schedule IH]; intros s H; simpl; [exact H|].
  apply IH, advance_coherent, H.
Qed.

Lemma exec_length schedule s :
  List.length (fst (exec w schedule s)) = List.length (fst s).
Proof.
  unfold exec. revert s.
  induction schedule as [|i schedule IH]; intros s; simpl; [reflexivity|].
  rewrite IH. apply advance_length.
Qed.

Lemma callers_not_started n : count_started (callers n) = 0.
Proof. unfold count_started, callers. induction n; simpl; auto. Qed.

Lemma callers_coherent n : coherent w (callers n, []).
Proof.
  unfold coherent. simpl. rewrite callers_not_started.
  repeat (split; [reflexivity|]). split.
  - intros i c H. apply nth_error_In, repeat_spec in H. now subst c.
  - intros i j ci cj k H _ Hr. apply nth_error_In, repeat_spec in H.
    subst ci. discriminate.
Qed.

Lemma count_started_le cs : count_started cs <= List.length cs.
Proof. apply filter_length_le. Qed.

Lemma settled_started cs :
  forallb is_settled cs = true -> count_started cs = List.length cs.
Proof.
  unfold count_started.
  induction cs as [|c cs IH]; simpl; [reflexivity|].
  intros H. apply andb_prop in H. destruct H as [Hc Hcs].
  destruct c; try discriminate. simpl. now rewrite IH.
Qed.

Lemma nth_error_repeat_lt {A} (x : A) n k : k < n -> nth_error (repeat x n) k = Some x.
Proof.
  revert k. induction n as [|n IH]; intros [|k] H; simpl; try lia; auto.
  apply IH. lia.
Qed.

End Concurrency.

(** C9, as the code has it. Probes are not coalesced: the function keeps no
    health record and no in-flight probe to share. In every interleaving of
    [n] concurrent callers each started call has issued its own probe; when
    all [n] callers have their answer exactly [n] outbound probes have been
    issued; a caller that has its answer holds the answer that the outcome
    of its own probe decides; and no two callers share a probe. *)
Theorem concurrent_callers_probe_each :
  forall (w : World) (n : nat) (schedule : list nat),
    let s := exec w schedule (callers n, []) in
    probes (config w) (snd s) = count_started (fst s) /\
    probes (config w) (snd s) <= n /\
    (forallb is_settled (fst s) = true -> probes (config w) (snd s) = n) /\
    (forall i k v,
       nth_error (fst s) i = Some (Settled k v) ->
       nth_error (requests (snd s)) k = Some (health_request (config w)) /\
       probe_answer (settle (nth_probe_outcome w k) HEALTH_TIMEOUT_MS) = Normal v) /\
    (forall i j ci cj k,
       nth_error (fst s) i = Some ci -> nth_error (fst s) j = Some cj ->
       request_of ci = Some k -> request_of cj = Some k -> i = j).
Proof.
  intros w n schedule s.
  assert (Hc : coherent w s) by apply exec_coherent, callers_coherent.
  assert (Hl : List.length (fst s) = n).
  { unfold s. rewrite exec_length. simpl. apply repeat_length. }
  destruct Hc as (Hp & Hf & Hr & Hok & Hinj).
  split; [exact Hp|]. split; [|split; [|split]].
  - rewrite Hp, <- Hl. apply count_started_le.
  - intros Hs. rewrite Hp, settled_started by assumption. exact Hl.
  - intros i k v Hi. destruct (Hok i _ Hi) as (Hk & Hv).
    split; [|exact Hv]. rewrite Hr. apply nth_error_repeat_lt. lia.
  - exact Hinj.
Qed.

(** Two callers whose calls interleave at every [await], on a service that
    stays up and on one that goes down between their probes. *)
Lemma concurrent_callers_probe_each_witness :
  fst (exec (service up Silent) [0; 1; 0; 1; 0; 1] (callers 2, []))
    = [Settled 0 (Bool true); Settled 1 (Bool true)] /\
  probes default_config
    (snd (exec (service up Silent) [0; 1; 0; 1; 0; 1] (callers 2, []))) = 2 /\
  fst (exec going_down [0; 1; 0; 1; 0; 1] (callers 2, []))
    = [Settled 0 (Bool true); Settled 1 (Bool false)] /\
  probes default_config
    (snd (exec going_down [0; 1; 0; 1; 0; 1] (callers 2, []))) = 2.
Proof.
  split; [reflexivity|]. split; [|split; [reflexivity|]].
  - apply (proj1 (proj2 (proj2 (concurrent_callers_probe_each (service up Silent) 2
                                  [0; 1; 0; 1; 0; 1])))).
    reflexivity.
  - apply (proj1 (proj2 (proj2 (concurrent_callers_probe_each going_down 2
                                  [0; 1; 0; 1; 0; 1])))).
    reflexivity.
Defined.

(** C9 as stated fails: two concurrent callers, neither of which finds a
    health record, issue two outbound probes, not one. *)
Lemma probe_coalescing_counterexample :
  let s := exec (service up Silent) [0; 1; 0; 1; 0; 1] (callers 2, []) in
  fst s = [Settled 0 (Bool true); Settled 1 (Bool true)] /\
  requests (snd s) = [health_request default_config; health_request default_config] /\
  probes default_config (snd s) <> 1.
Proof.
  intros s. split; [reflexivity|]. split; [reflexivity|].
  vm_compute. discriminate.
Qed.

(** * Further properties of the client *)

(** ** [processMOEText] *)

Lemma settle_times_out d o :
  times_out d o ->
  settle o d = Throw (DOMException "AbortError" "This operation was aborted").
Proof.
  intros H. destruct H; simpl; try reflexivity;
    apply Z.ltb_ge in H; now rewrite H.
Qed.

Lemma processMOEText_cases text o w l :
  match fst (processMOEText text o w l) with
  | Done (Normal v) =>
      exists t r,
        call_outcome w l text o = Responds t r /\
        (t < timer_delay (MOE_TIMEOUT_MS (config w)))%Z /\ ok r = true /\
        json r = Normal v
  | Done (Throw e) =>
      (exists m st, e = MOEError m st) /\
      ~ stalls (MOE_TIMEOUT_MS (config w)) (call_outcome w l text o)
  | Pending => stalls (MOE_TIMEOUT_MS (config w)) (call_outcome w l text o)
  end.
Proof.
  destruct (processMOEText_run text o w l) as (c & Hrun & _ & _ & Hst).
  fold (call_outcome w l text o) in Hst.
  assert (Hns : forall x, c = Done x ->
            ~ stalls (MOE_TIMEOUT_MS (config w)) (call_outcome w l text o)).
  { intros x -> H. apply Hst in H. discriminate. }
  clear Hst. revert Hrun Hns.
  unfold processMOEText, call_outcome, stalls. run_moe.
  assert (Hthrow : forall (e : Exn) (l' : Log) (P : Prop),
            (exists m st, e = MOEError m st) ->
            (Done (Throw e), l') = (c, l') ->
            (forall x : Completion Value, c = Done x -> P) ->
            (exists m st, e = MOEError m st) /\ P).
  { intros e l' P He [= <-] HP. split; [exact He | eapply HP; reflexivity]. }
  destruct (net w (fetch_count l) (process_request (config w) text o))
    as [t r|t reason|]; simpl.
  - destruct (t <? timer_delay (MOE_TIMEOUT_MS (config w)))%Z eqn:Ht; simpl;
      [|apply Hthrow; eauto].
    destruct (ok r) eqn:Hok; simpl; [|apply Hthrow; eauto].
    destruct (json r) as [[v|e]|] eqn:Hj; simpl.
    + intros _ _. exists t, r. apply Z.ltb_lt in Ht. auto.
    + destruct e; simpl; try destruct (String.eqb name "AbortError"); simpl;
        apply Hthrow; eauto.
    + intros _ _. exists t, r. apply Z.ltb_lt in Ht. auto.
  - destruct (t <? timer_delay (MOE_TIMEOUT_MS (config w)))%Z; simpl;
      apply Hthrow; eauto.
  - apply Hthrow; eauto.
Qed.

(** X1. [processMOEText] returns exactly the parsed body of an ok response
    whose headers arrived before the abort timer fired; it stays suspended
    exactly when such headers arrived and the body never completes; in every
    other case it throws, and what it throws is always an [MOEError], never
    the platform's own exception. The timer is the one [setTimeout] arms for
    [MOE_TIMEOUT_MS]: it fires after 1 ms when that delay is below 1 or above
    2^31 - 1. *)
Theorem processMOEText_outcomes :
  forall (text : Value) (o : MOERequestOptions) (w : World) (l : Log),
    match fst (processMOEText text o w l) with
    | Done (Normal v) =>
        exists t r,
          call_outcome w l text o = Responds t r /\
          (t < timer_delay (MOE_TIMEOUT_MS (config w)))%Z /\ ok r = true /\
          json r = Normal v
    | Done (Throw e) =>
        (exists m st, e = MOEError m st) /\
        ~ stalls (MOE_TIMEOUT_MS (config w)) (call_outcome w l text o)
    | Pending => stalls (MOE_TIMEOUT_MS (config w)) (call_outcome w l text o)
    end /\
    (forall t r v,
       call_outcome w l text o = Responds t r ->
       (t < timer_delay (MOE_TIMEOUT_MS (config w)))%Z ->
       ok r = true -> json r = Normal v ->
       fst (processMOEText text o w l) = Normal v) /\
    (stalls (MOE_TIMEOUT_MS (config w)) (call_outcome w l text o) ->
     fst (processMOEText text o w l) = Pending).
Proof.
  intros text o w l. split; [apply processMOEText_cases|].
  destruct (processMOEText_run text o w l) as (c & Hrun & _ & Hok' & Hst).
  rewrite Hrun. simpl. split.
  - intros t r v Hout Ht Hok Hj. eapply Hok'; eauto.
  - apply Hst.
Qed.

(** The service answers the processing call within 1.3 seconds; under a
    delay of 3000000000 ms, which the timer replaces by 1 ms, the same answer
    is late. *)
Lemma processMOEText_outcomes_witness :
  fst (processMOEText (Str "hello") no_options (service up routed_to_longformer) []) =
    Normal (moe_answer "Processed by Longformer" "longformer" (number 3 (-2))) /\
  fst (processMOEText (Str "hello") no_options
         (with_timeout 3000000000 (service up routed_to_longformer)) []) =
    Throw (MOEError "MOE API request timed out" (Some 408%Z)) /\
  fst (processMOEText (Str "hello") no_options (service up stalled) []) = Pending.
Proof.
  split; [|split].
  - apply (proj1 (proj2 (processMOEText_outcomes (Str "hello") no_options
                           (service up routed_to_longformer) []))
             1245%Z
             (json_response (moe_answer "Processed by Longformer" "longformer"
                                        (number 3 (-2))))).
    + reflexivity.
    + reflexivity.
    + reflexivity.
    + reflexivity.
  - reflexivity.
  - apply (proj2 (proj2 (processMOEText_outcomes (Str "hello") no_options
                           (service up stalled) []))).
    eexists. eexists. split; [reflexivity|]. repeat split.
Defined.

(** X2. A call that is not answered before [MOE_TIMEOUT_MS] throws the
    [MOEError] of a timeout, with status 408, whatever arrives later. *)
Theorem processMOEText_timeout :
  forall (text : Value) (o : MOERequestOptions) (w : World) (l : Log),
    times_out (MOE_TIMEOUT_MS (config w)) (call_outcome w l text o) ->
    fst (processMOEText text o w l) =
      Throw (MOEError "MOE API request timed out" (Some 408%Z)).
Proof.
  intros text o w l H. unfold processMOEText, call_outcome in *. run_moe.
  now rewrite (settle_times_out _ _ H).
Qed.

(** The service answers after 45 seconds; the default deadline is 30. *)
Lemma processMOEText_timeout_witness :
  fst (processMOEText (Str "hello") no_options
         (service up (Responds 45000 (json_response (Obj [])))) []) =
    Throw (MOEError "MOE API request timed out" (Some 408%Z)).
Proof.
  apply processMOEText_timeout. apply late_response. vm_compute. discriminate.
Defined.

(** X3. A response whose status is outside 200-299 and whose headers arrive
    before the abort timer fires throws an [MOEError] that carries the status
    of the response and names it, with the status text, in its message; the
    body of the response plays no part. *)
Theorem processMOEText_error_response :
  forall (text : Value) (o : MOERequestOptions) (w : World) (l : Log)
         (t : Z) (r : Response),
    call_outcome w l text o = Responds t r ->
    (t < timer_delay (MOE_TIMEOUT_MS (config w)))%Z ->
    ok r = false ->
    fst (processMOEText text o w l) =
      Throw (MOEError ("MOE API returned " ++ show_status (status r) ++ ": "
                         ++ statusText r)%string
                      (Some (status r))).
Proof.
  intros text o w l t r Hout Ht Hok.
  unfold processMOEText, call_outcome in *. run_moe.
  rewrite Hout. simpl. apply Z.ltb_lt in Ht. rewrite Ht. simpl.
  now rewrite Hok.
Qed.

Lemma processMOEText_error_response_witness :
  fst (processMOEText (Str "hello") no_options (service up overloaded) []) =
    Throw (MOEError "MOE API returned 503: Service Unavailable" (Some 503%Z)).
Proof.
  apply (processMOEText_error_response (Str "hello") no_options
           (service up overloaded) [] 900
           {| status := 503; statusText := "Service Unavailable";
              json := Normal (Obj [("detail", Str "busy")]) |}).
  - reflexivity.
  - reflexivity.
  - reflexivity.
Defined.

(** X4. A transport failure before the abort timer fires, and an ok response
    in time whose body does not parse, both throw an [MOEError] without
    status whose message is the platform's message behind a fixed prefix. *)
Theorem processMOEText_wraps_failures :
  forall (text : Value) (o : MOERequestOptions) (w : World) (l : Log) (t : Z),
    (t < timer_delay (MOE_TIMEOUT_MS (config w)))%Z ->
    (forall reason,
       call_outcome w l text o = Fails t reason ->
       fst (processMOEText text o w l) =
         Throw (MOEError ("MOE API request failed: " ++ reason)%string None)) /\
    (forall r m,
       call_outcome w l text o = Responds t r ->
       ok r = true -> json r = Throw (SyntaxError m) ->
       fst (processMOEText text o w l) =
         Throw (MOEError ("MOE API request failed: " ++ m)%string None)).
Proof.
  intros text o w l t Ht. apply Z.ltb_lt in Ht. split.
  - intros reason Hout. unfold processMOEText, call_outcome in *. run_moe.
    rewrite Hout. simpl. now rewrite Ht.
  - intros r m Hout Hok Hj. unfold processMOEText, call_outcome in *. run_moe.
    rewrite Hout. simpl. rewrite Ht. simpl. now rewrite Hok, Hj.
Qed.

Lemma processMOEText_wraps_failures_witness :
  fst (processMOEText (Str "hello") no_options (service up refused) []) =
    Throw (MOEError "MOE API request failed: fetch failed" None).
Proof.
  apply (proj1 (processMOEText_wraps_failures (Str "hello") no_options
                  (service up refused) [] 2 eq_refl) "fetch failed").
  reflexivity.
Defined.

(** X5. Whatever the outcome (a body, an error response, a timeout, a
    stalled body), a call of [processMOEText] issues exactly one request and
    writes nothing to the console: a POST to [/process/sync] with the delay
    [MOE_TIMEOUT_MS] handed to the abort timer, whose body carries the text
    unchanged, the task and the options of the caller, and ['process'] and
    [{}] where the caller gave none or gave [undefined]. *)
Theorem processMOEText_one_request :
  forall (text : Value) (o : MOERequestOptions) (w : World) (l : Log),
  exists req payload,
    snd (processMOEText text o w l) = l ++ [EFetch req (MOE_TIMEOUT_MS (config w))] /\
    method req = POST /\
    url req = (MOE_API_BASE_URL (config w) ++ "/process/sync")%string /\
    body req = Some payload /\
    get payload "text" = Normal text /\
    get payload "task" =
      Normal (match task o with
              | None | Some Undefined => Str "process"
              | Some t => t
              end) /\
    get payload "options" =
      Normal (match options o with
              | None | Some Undefined => Obj []
              | Some x => x
              end).
Proof.
  intros text o w l.
  destruct (processMOEText_run text o w l) as (c & Hrun & _).
  rewrite Hrun. simpl. eexists. eexists. split; [reflexivity|].
  repeat split.
Qed.

(** ** What the probe writes to the console *)

(** X6. The probe reports on the console exactly the failures that are
    exceptions: a timeout is logged with the [AbortError], a refused
    connection with the [TypeError] of [fetch], an unparsable body with the
    error of the parser; an answer with a status outside 200-299 and an
    answer whose body is a JSON object, whatever it says, leave no line. *)
Theorem probe_console :
  forall (w : World) (l : Log),
    let o := probe_outcome w l in
    let said e := l ++ [probe_event w; EError "MOE health check failed:" e] in
    (times_out HEALTH_TIMEOUT_MS o ->
     snd (checkMOEAvailability w l) =
       said (DOMException "AbortError" "This operation was aborted")) /\
    (forall t reason,
       o = Fails t reason -> (t < HEALTH_TIMEOUT_MS)%Z ->
       snd (checkMOEAvailability w l) = said (TypeError reason)) /\
    (forall t r e,
       o = Responds t r -> (t < HEALTH_TIMEOUT_MS)%Z -> ok r = true ->
       json r = Throw e ->
       snd (checkMOEAvailability w l) = said e) /\
    (forall t r,
       o = Responds t r -> (t < HEALTH_TIMEOUT_MS)%Z -> ok r = false ->
       snd (checkMOEAvailability w l) = l ++ [probe_event w]) /\
    (forall t r fields,
       o = Responds t r -> (t < HEALTH_TIMEOUT_MS)%Z -> ok r = true ->
       json r = Normal (Obj fields) ->
       snd (checkMOEAvailability w l) = l ++ [probe_event w]).
Proof.
  intros w l o said. subst o said.
  unfold probe_outcome, checkMOEAvailability, probe_event. run_moe.
  repeat split.
  - intros H. rewrite (settle_times_out _ _ H). simpl.
    now rewrite <- app_assoc.
  - intros t reason -> Ht. simpl. rewrite timer_delay_health. apply Z.ltb_lt in Ht. rewrite Ht. simpl.
    now rewrite <- app_assoc.
  - intros t r e -> Ht Hok Hj. simpl. rewrite timer_delay_health. apply Z.ltb_lt in Ht. rewrite Ht. simpl.
    rewrite Hok, Hj. simpl. now rewrite <- app_assoc.
  - intros t r -> Ht Hok. simpl. rewrite timer_delay_health. apply Z.ltb_lt in Ht. rewrite Ht. simpl.
    now rewrite Hok.
  - intros t r fields -> Ht Hok Hj. simpl. rewrite timer_delay_health. apply Z.ltb_lt in Ht. rewrite Ht. simpl.
    rewrite Hok, Hj. simpl.
    destruct (lookup "status" fields) as [st|]; simpl.
    + destruct (strict_eq_str st "healthy"); simpl; [|reflexivity].
      destruct (lookup "models_loaded" fields); reflexivity.
    + reflexivity.
Qed.

(** A probe that nothing answers, and a service that answers 503. *)
Lemma probe_console_witness :
  snd (checkMOEAvailability (service Silent Silent) []) =
    [probe_event (service Silent Silent);
     EError "MOE health check failed:"
            (DOMException "AbortError" "This operation was aborted")] /\
  snd (checkMOEAvailability (service overloaded Silent) []) =
    [probe_event (service overloaded Silent)].
Proof.
  split.
  - apply (proj1 (probe_console (service Silent Silent) [])). apply late_silent.
  - apply (proj1 (proj2 (proj2 (proj2 (probe_console (service overloaded Silent) []))))
             900%Z {| status := 503; statusText := "Service Unavailable";
                      json := Normal (Obj [("detail", Str "busy")]) |}).
    + reflexivity.
    + reflexivity.
    + reflexivity.
Defined.

(** ** Which message is sent *)

Lemma get_not_nullish v k : nullish v = false -> get v k = Normal (prop v k).
Proof.
  unfold prop. destruct v; simpl; try discriminate; intros _; try reflexivity.
  destruct (lookup k fields); reflexivity.
Qed.

Lemma get_nullish v k : nullish v = true -> exists m, get v k = Throw (TypeError m).
Proof. destruct v; simpl; try discriminate; eauto. Qed.

Lemma filter_user_readable ms :
  (forall m, In m ms -> nullish m = false) ->
  filter_user ms = Normal (filter is_user ms).
Proof.
  induction ms as [|m ms IH]; intros Hall; [reflexivity|].
  simpl. unfold is_user.
  rewrite (get_not_nullish m "role") by (apply Hall; now left).
  simpl. rewrite IH by (intros x Hx; apply Hall; now right). simpl.
  destruct (strict_eq_str (prop m "role") "user"); reflexivity.
Qed.

Lemma filter_user_nullish ms :
  (exists m, In m ms /\ nullish m = true) ->
  exists msg, filter_user ms = Throw (TypeError msg).
Proof.
  induction ms as [|m ms IH]; intros (x & Hin & Hx); [destruct Hin|].
  simpl. destruct (nullish m) eqn:Hm.
  - destruct (get_nullish m "role" Hm) as (msg & ->). simpl. eauto.
  - rewrite (get_not_nullish m "role" Hm). simpl.
    destruct Hin as [-> | Hin]; [congruence|].
    destruct IH as (msg & ->); [eauto|]. simpl. eauto.
Qed.

Lemma is_user_truthy m : is_user m = true -> truthy m = true.
Proof.
  unfold is_user. destruct m; simpl; try discriminate; reflexivity.
Qed.

Lemma filter_none {A} (f : A -> bool) l :
  (forall x, In x l -> f x = false) -> filter f l = [].
Proof.
  induction l as [|x l IH]; intros H; [reflexivity|].
  simpl. rewrite (H x) by now left. apply IH. intros y Hy. apply H. now right.
Qed.

(** X7. The text dispatched is that of the last message whose [role] is
    ['user']: the messages before it, whatever their role, and the messages
    of other roles after it play no part. *)
Theorem last_user_text_picks_last :
  forall (before after : list Value) (u : Value),
    (forall m, In m (before ++ u :: after) -> nullish m = false) ->
    is_user u = true ->
    (forall m, In m after -> is_user m = false) ->
    last_user_text (Arr (before ++ u :: after)) = extractMessageText u.
Proof.
  intros before after u Hall Hu Hafter.
  unfold last_user_text, user_messages.
  rewrite (filter_user_readable _ Hall). simpl.
  rewrite filter_app. simpl. rewrite Hu, (filter_none _ _ Hafter).
  unfold pop. rewrite last_last.
  now rewrite (is_user_truthy _ Hu).
Qed.

(** A conversation that ends with an answer of the assistant. *)
Lemma last_user_text_picks_last_witness :
  last_user_text
    (Arr ([Obj [("role", Str "user"); ("content", Str "first")];
           Obj [("role", Str "assistant"); ("content", Str "answer")]]
          ++ Obj [("role", Str "user"); ("content", Str "second")]
          :: [Obj [("role", Str "assistant"); ("content", Str "again")]]))
  = Normal (Str "second").
Proof.
  change (Normal (Str "second"))
    with (extractMessageText (Obj [("role", Str "user"); ("content", Str "second")])).
  apply last_user_text_picks_last.
  - intros m [<- | [<- | [<- | [<- | []]]]]; reflexivity.
  - reflexivity.
  - intros m [<- | []]. reflexivity.
Defined.

(** X8. When no text can be taken from the messages the [try] block is left
    by an exception: ["No user message found"] for an array (the empty one
    too) without a message of role ['user'], and a [TypeError] for an array
    that holds [null] or [undefined] anywhere, even beside a user message,
    and for anything that is not an array. *)
Theorem last_user_text_errors :
  (forall ms,
     (forall m, In m ms -> nullish m = false) ->
     (forall m, In m ms -> is_user m = false) ->
     last_user_text (Arr ms) = Throw (Error "No user message found")) /\
  (forall ms,
     (exists m, In m ms /\ nullish m = true) ->
     exists msg, last_user_text (Arr ms) = Throw (TypeError msg)) /\
  (forall messages,
     isArray messages = false ->
     exists msg, last_user_text messages = Throw (TypeError msg)).
Proof.
  split; [|split].
  - intros ms Hall Hnone. unfold last_user_text, user_messages.
    rewrite (filter_user_readable _ Hall), (filter_none _ _ Hnone). reflexivity.
  - intros ms H. unfold last_user_text, user_messages.
    destruct (filter_user_nullish ms H) as (msg & ->). simpl. eauto.
  - intros messages H. unfold last_user_text, user_messages.
    destruct messages; simpl; try discriminate; eauto.
Qed.

Lemma last_user_text_errors_witness :
  last_user_text (Arr []) = Throw (Error "No user message found") /\
  (exists msg,
     last_user_text (Arr [Obj [("role", Str "user"); ("content", Str "hi")]; Null])
       = Throw (TypeError msg)) /\
  (exists msg, last_user_text (Str "hello") = Throw (TypeError msg)).
Proof.
  split; [|split].
  - apply (proj1 last_user_text_errors []); intros m [].
  - apply (proj1 (proj2 last_user_text_errors)).
    exists Null. split; [right; now left | reflexivity].
  - apply (proj2 (proj2 last_user_text_errors)). reflexivity.
Defined.


(** ** The paths of a dispatch *)

Lemma healthy_probe w l :
  healthy_with (fun m => truthy m = true) (probe_outcome w l) ->
  exists v,
    truthy v = true /\
    checkMOEAvailability w l = (Normal v, l ++ [probe_event w]).
Proof.
  intros (t & r & data & m & Ho & Ht & Hok & Hj & Hst & Hm & Hv).
  exists m. split; [exact Hv|].
  unfold probe_outcome in Ho. unfold checkMOEAvailability, probe_event. run_moe.
  rewrite Ho. simpl. rewrite timer_delay_health. apply Z.ltb_lt in Ht. rewrite Ht. simpl.
  rewrite Hok, Hj. simpl. rewrite Hst. simpl. now rewrite Hm.
Qed.

Lemma processing_outcome_after_probe w l text :
  processing_outcome w (l ++ [probe_event w]) text =
  net w (fetch_count (l ++ [probe_event w])) (process_request (config w) text no_options).
Proof. reflexivity. Qed.

Lemma success_result_not_nullish body :
  nullish body = false ->
  success_result body =
    Normal (Obj [("result", prop body "result");
                 ("expertUsed", prop body "expert_used");
                 ("confidence", prop body "confidence");
                 ("processingTime", prop body "processing_time");
                 ("usedFallback", Bool false)]).
Proof.
  intros H. unfold success_result. now rewrite !(get_not_nullish body) by assumption.
Qed.

(** X9. With a healthy service and no user text to send (no user message,
    a [null] among the messages, no array at all), the dispatch stops after
    the probe: the processing endpoint is not called, the exception is
    written to the console and the fallback object is returned. *)
Theorem no_user_text_no_call :
  forall (messages opts : Value) (w : World) (l : Log) (e : Exn),
    healthy_with (fun m => truthy m = true) (probe_outcome w l) ->
    last_user_text messages = Throw e ->
    processMOERequest messages opts w l =
      (Normal fallback_result,
       l ++ [probe_event w; EError "MOE processing failed:" e]).
Proof.
  intros messages opts w l e Hh Ht.
  destruct (healthy_probe w l Hh) as (v & Hv & Hrun).
  rewrite processMOERequest_eq, Hrun, Hv, Ht. simpl.
  unfold failed_log. now rewrite <- app_assoc.
Qed.

(** An empty conversation. *)
Lemma no_user_text_no_call_witness :
  processMOERequest (Arr []) Undefined (service up routed_to_longformer) [] =
    (Normal fallback_result,
     [probe_event (service up routed_to_longformer);
      EError "MOE processing failed:" (Error "No user message found")]).
Proof.
  apply (no_user_text_no_call (Arr []) Undefined (service up routed_to_longformer) []).
  - exists 40%Z, (json_response (health_body "healthy" true)),
      (health_body "healthy" true), (Bool true).
    repeat split.
  - reflexivity.
Defined.

(** X10. With a healthy service, a user text and an ok answer, in before
    the abort timer fires, whose body is any JSON value but [null], the
    dispatch succeeds: two requests,
    no console line, and a result that copies [result], [expert_used],
    [confidence] and [processing_time] from the body under the names
    [result], [expertUsed], [confidence] and [processingTime], a field the
    body lacks being [undefined]; the body is not validated. *)
Theorem dispatch_success :
  forall (messages opts : Value) (w : World) (l : Log)
         (text body : Value) (t : Z) (r : Response),
    healthy_with (fun m => truthy m = true) (probe_outcome w l) ->
    last_user_text messages = Normal text ->
    processing_outcome w (l ++ [probe_event w]) text = Responds t r ->
    (t < timer_delay (MOE_TIMEOUT_MS (config w)))%Z -> ok r = true ->
    json r = Normal body -> nullish body = false ->
    processMOERequest messages opts w l =
      (Normal (Obj [("result", prop body "result");
                    ("expertUsed", prop body "expert_used");
                    ("confidence", prop body "confidence");
                    ("processingTime", prop body "processing_time");
                    ("usedFallback", Bool false)]),
       l ++ [probe_event w; processing_event w text]).
Proof.
  intros messages opts w l text body t r Hh Ht Ho Hlt Hok Hj Hb.
  destruct (healthy_probe w l Hh) as (v & Hv & Hrun).
  destruct (processMOEText_run text no_options w (l ++ [probe_event w]))
    as (c & Hpr & _ & Hsucc & _).
  rewrite (Hsucc t r body Ho Hlt Hok Hj) in Hpr.
  rewrite processMOERequest_eq, Hrun, Hv, Ht. simpl.
  rewrite Hpr, (success_result_not_nullish body Hb).
  unfold processing_event. now rewrite <- app_assoc.
Qed.

(** The service answers with an empty object: a success without text. *)
Lemma dispatch_success_witness :
  processMOERequest hello Undefined
    (service up (Responds 100 (json_response (Obj [])))) [] =
    (Normal (Obj [("result", Undefined);
                  ("expertUsed", Undefined);
                  ("confidence", Undefined);
                  ("processingTime", Undefined);
                  ("usedFallback", Bool false)]),
     [probe_event (service up Silent);
      processing_event (service up Silent) (Str "hello")]).
Proof.
  apply (dispatch_success hello Undefined
           (service up (Responds 100 (json_response (Obj [])))) []
           (Str "hello") (Obj []) 100%Z (json_response (Obj []))).
  - exists 40%Z, (json_response (health_body "healthy" true)),
      (health_body "healthy" true), (Bool true).
    repeat split.
  - reflexivity.
  - reflexivity.
  - reflexivity.
  - reflexivity.
  - reflexivity.
  - reflexivity.
Defined.

(** X11. A body that parses to [null] is the one answer of an ok response,
    in before the abort timer fires, that is not taken as a success: reading [result] throws, the exception is
    written to the console and the fallback object is returned. *)
Theorem null_body_falls_back :
  forall (messages opts : Value) (w : World) (l : Log)
         (text : Value) (t : Z) (r : Response),
    healthy_with (fun m => truthy m = true) (probe_outcome w l) ->
    last_user_text messages = Normal text ->
    processing_outcome w (l ++ [probe_event w]) text = Responds t r ->
    (t < timer_delay (MOE_TIMEOUT_MS (config w)))%Z -> ok r = true ->
    json r = Normal Null ->
    processMOERequest messages opts w l =
      (Normal fallback_result,
       l ++ [probe_event w; processing_event w text;
             EError "MOE processing failed:"
               (TypeError "Cannot read properties of null (reading 'result')")]).
Proof.
  intros messages opts w l text t r Hh Ht Ho Hlt Hok Hj.
  destruct (healthy_probe w l Hh) as (v & Hv & Hrun).
  destruct (processMOEText_run text no_options w (l ++ [probe_event w]))
    as (c & Hpr & _ & Hsucc & _).
  rewrite (Hsucc t r Null Ho Hlt Hok Hj) in Hpr.
  rewrite processMOERequest_eq, Hrun, Hv, Ht. simpl.
  rewrite Hpr. simpl. unfold failed_log, processing_event.
  now rewrite <- !app_assoc.
Qed.

Lemma null_body_falls_back_witness :
  fst (processMOERequest hello Undefined
         (service up (Responds 100 (json_response Null))) []) =
    Normal fallback_result.
Proof.
  rewrite (null_body_falls_back hello Undefined
             (service up (Responds 100 (json_response Null))) []
             (Str "hello") 100%Z (json_response Null)).
  - reflexivity.
  - exists 40%Z, (json_response (health_body "healthy" true)),
      (health_body "healthy" true), (Bool true).
    repeat split.
  - reflexivity.
  - reflexivity.
  - reflexivity.
  - reflexivity.
  - reflexivity.
Defined.


(** ** What a result tells *)

Lemma success_is_not_fallback body r :
  success_result body = Normal r -> r <> fallback_result.
Proof.
  intros H E. apply success_result_usedFallback in H. subst r. discriminate.
Qed.

Lemma truthy_probe w l :
  truthy (verdict (settle (probe_outcome w l) HEALTH_TIMEOUT_MS)) = true ->
  healthy_with (fun m => truthy m = true) (probe_outcome w l) /\
  checkMOEAvailability w l =
    (Normal (verdict (settle (probe_outcome w l) HEALTH_TIMEOUT_MS)),
     l ++ [probe_event w]).
Proof.
  intros Hv. apply verdict_truthy_iff in Hv. split; [exact Hv|].
  destruct (healthy_probe w l Hv) as (v & _ & Hrun).
  rewrite Hrun. f_equal.
  destruct (checkMOEAvailability_run w l) as (errs & Hrun' & _).
  rewrite Hrun' in Hrun. injection Hrun as Hval _.
  unfold verdict. now rewrite Hval.
Qed.

(** X12. A result whose [usedFallback] is [false] is never made up: the
    probe was answered healthy in time, a user text was found, the
    processing endpoint was called once, for that text, and answered before
    the abort timer fired (hence before [MOE_TIMEOUT_MS], where that is a
    delay of at least 1 ms) with an ok response whose body the result is
    built from; and the dispatch wrote nothing to the console. *)
Theorem success_is_earned :
  forall (messages opts : Value) (w : World) (l l' : Log) (r : Value),
    processMOERequest messages opts w l = (Normal r, l') ->
    get r "usedFallback" = Normal (Bool false) ->
    healthy_with (fun m => truthy m = true) (probe_outcome w l) /\
    exists text t resp body,
      last_user_text messages = Normal text /\
      processing_outcome w (l ++ [probe_event w]) text = Responds t resp /\
      (t < timer_delay (MOE_TIMEOUT_MS (config w)))%Z /\
      (1 <= MOE_TIMEOUT_MS (config w) -> t < MOE_TIMEOUT_MS (config w))%Z /\
      ok resp = true /\
      json resp = Normal body /\
      success_result body = Normal r /\
      l' = l ++ [probe_event w; processing_event w text].
Proof.
  intros messages opts w l l' r Hrun Hfb.
  assert (Hnf : r <> fallback_result) by (intros ->; discriminate).
  rewrite processMOERequest_eq in Hrun.
  destruct (truthy (verdict (settle (probe_outcome w l) HEALTH_TIMEOUT_MS))) eqn:Hv.
  - destruct (truthy_probe w l Hv) as (Hh & Hc). split; [exact Hh|].
    rewrite Hc, Hv in Hrun. simpl in Hrun.
    destruct (last_user_text messages) as [text|e] eqn:Ht;
      [|injection Hrun as <- _; now elim Hnf].
    pose proof (processMOEText_cases text no_options w (l ++ [probe_event w])) as Hcases.
    destruct (processMOEText_run text no_options w (l ++ [probe_event w]))
      as (c & Hpr & _).
    rewrite Hpr in Hrun, Hcases. simpl in Hcases.
    destruct c as [[body|e]|];
      [|injection Hrun as <- _; now elim Hnf|discriminate].
    destruct (success_result body) as [r'|e] eqn:Hs;
      [|injection Hrun as <- _; now elim Hnf].
    injection Hrun as <- <-.
    destruct Hcases as (t & resp & Ho & Hlt & Hok & Hj).
    exists text, t, resp, body. unfold processing_event.
    rewrite <- app_assoc. repeat split; auto.
    intros Hd. pose proof (timer_delay_le _ Hd). lia.
  - destruct (checkMOEAvailability_run w l) as (errs & Hc & _).
    rewrite Hc in Hrun.
    destruct (probe_answer_cases (settle (probe_outcome w l) HEALTH_TIMEOUT_MS))
      as [Ha | (Ha & _)]; rewrite Ha in Hrun; [|discriminate].
    rewrite Hv in Hrun. simpl in Hrun.
    injection Hrun as <- _. now elim Hnf.
Qed.

Lemma success_is_earned_witness :
  exists text,
    last_user_text hello = Normal text /\
    snd (processMOERequest hello (forced "byt5") (service up routed_to_longformer) []) =
      [probe_event (service up routed_to_longformer);
       processing_event (service up routed_to_longformer) text].
Proof.
  destruct (success_is_earned hello (forced "byt5") (service up routed_to_longformer) []
              (snd (processMOERequest hello (forced "byt5")
                      (service up routed_to_longformer) []))
              (Obj [("result", Str "Processed by Longformer");
                    ("expertUsed", Str "longformer");
                    ("confidence", number 3 (-2));
                    ("processingTime", number 3 (-2));
                    ("usedFallback", Bool false)]))
    as (_ & text & t & resp & body & Ht & _ & _ & _ & _ & _ & _ & Hl).
  - reflexivity.
  - reflexivity.
  - exists text. split; assumption.
Defined.

Lemma requests_probe_errs w errs :
  fetch_count errs = 0 -> requests (probe_event w :: errs) = [health_request (config w)].
Proof.
  intros H. simpl. f_equal.
  induction errs as [|ev errs IH]; [reflexivity|].
  destruct ev; simpl in *; try discriminate; apply IH; exact H.
Qed.

(** X13. Every dispatch begins with exactly one liveness probe and issues
    at most one more request, the processing call for the text of the last
    user message with the task ['process'] and empty options. *)
Theorem dispatch_requests :
  forall (messages opts : Value) (w : World) (l : Log),
    let l' := snd (processMOERequest messages opts w l) in
    probes (config w) l' = probes (config w) l + 1 /\
    (requests l' = requests l ++ [health_request (config w)] \/
     exists text,
       last_user_text messages = Normal text /\
       requests l' =
         requests l ++ [health_request (config w);
                        process_request (config w) text no_options]).
Proof.
  intros messages opts w l. cbv zeta.
  destruct (processMOERequest_anatomy messages opts w l)
    as (errs & Hf & Hp & Hc & H).
  pose proof (requests_probe_errs w errs Hf) as Hreq.
  pose proof (probes_after_probe w l errs Hp) as Hpr.
  destruct H as [(_ & H) | [(_ & _ & H) | [(_ & e & _ & H) | (_ & text & c & Ht & _ & H)]]].
  - rewrite H. simpl. split; [exact Hpr|].
    left. rewrite !requests_app, Hreq. reflexivity.
  - rewrite H. simpl. unfold unavailable_log. split.
    + rewrite probes_app, Hpr. unfold probes at 2. simpl. lia.
    + left. rewrite !requests_app, Hreq. simpl. now rewrite app_nil_r.
  - rewrite H. simpl. unfold failed_log. split.
    + rewrite probes_app, Hpr. unfold probes at 2. simpl. lia.
    + left. rewrite !requests_app, Hreq. simpl. now rewrite app_nil_r.
  - assert (Hev : probes (config w) [processing_event w text] = 0).
    { unfold probes. simpl. now rewrite String.eqb_sym, health_is_not_processing. }
    assert (Hlog : forall tail, fetch_count tail = 0 -> probes (config w) tail = 0 ->
              requests tail = [] ->
              probes (config w) (((l ++ probe_event w :: errs) ++ [processing_event w text]) ++ tail)
                = probes (config w) l + 1 /\
              requests (((l ++ probe_event w :: errs) ++ [processing_event w text]) ++ tail)
                = requests l ++ [health_request (config w);
                                 process_request (config w) text no_options]).
    { intros tail _ Hpt Hrt. split.
      - rewrite (probes_app (config w) _ tail),
          (probes_app (config w) _ [processing_event w text]), Hpr, Hev, Hpt. lia.
      - rewrite !requests_app, Hreq, Hrt. simpl.
        now rewrite app_nil_r, <- app_assoc. }
    destruct c as [[body|e]|]; [destruct (success_result body)| |]; rewrite H; simpl.
    + destruct (Hlog [] eq_refl eq_refl eq_refl) as (H1 & H2).
      rewrite app_nil_r in H1, H2. split; [exact H1 | right; eauto].
    + destruct (Hlog [EError "MOE processing failed:" e] eq_refl eq_refl eq_refl)
        as (H1 & H2).
      split; [exact H1 | right; eauto].
    + destruct (Hlog [EError "MOE processing failed:" e] eq_refl eq_refl eq_refl)
        as (H1 & H2).
      split; [exact H1 | right; eauto].
    + destruct (Hlog [] eq_refl eq_refl eq_refl) as (H1 & H2).
      rewrite app_nil_r in H1, H2. split; [exact H1 | right; eauto].
Qed.

(** X14. The fallback is never silent: a dispatch that returns the fallback
    object has just written a line to the console, the warning of an
    unavailable service or the error that was caught. *)
Theorem fallback_never_silent :
  forall (messages opts : Value) (w : World) (l : Log),
    fst (processMOERequest messages opts w l) = Normal fallback_result ->
    exists l0,
      snd (processMOERequest messages opts w l) =
        l0 ++ [EWarn "MOE API unavailable, falling back to default provider"] \/
      exists e,
        snd (processMOERequest messages opts w l) =
          l0 ++ [EError "MOE processing failed:" e].
Proof.
  intros messages opts w l Hfb.
  destruct (processMOERequest_anatomy messages opts w l)
    as (errs & _ & _ & _ &
        [(_ & H) | [(_ & _ & H) | [(_ & e & _ & H) | (_ & text & c & _ & _ & H)]]]).
  - rewrite H in Hfb. discriminate.
  - rewrite H. simpl. eexists. left. reflexivity.
  - rewrite H. simpl. eexists. right. eexists. reflexivity.
  - destruct c as [[body|e]|]; [destruct (success_result body) as [r|e] eqn:Hs| |].
    + rewrite H in Hfb. simpl in Hfb. injection Hfb as ->.
      now elim (success_is_not_fallback _ _ Hs).
    + rewrite H. simpl. eexists. right. eexists. reflexivity.
    + rewrite H. simpl. eexists. right. eexists. reflexivity.
    + rewrite H in Hfb. discriminate.
Qed.

Lemma fallback_never_silent_witness :
  exists l0,
    snd (processMOERequest hello Undefined (service up overloaded) []) =
      l0 ++ [EWarn "MOE API unavailable, falling back to default provider"] \/
    exists e,
      snd (processMOERequest hello Undefined (service up overloaded) []) =
        l0 ++ [EError "MOE processing failed:" e].
Proof.
  apply fallback_never_silent. reflexivity.
Defined.

(** ** The middleware and the gate of the chat route *)

(** X15. The middleware of an MOE model, with or without an expert in its
    options, runs [generate] exactly when the dispatch fell back, after the
    dispatch and with [generate]'s own completion (its exceptions too) as the
    outcome; when the dispatch succeeded, [generate] is not run and the
    answer is [{ text: result }], the [result] of the dispatch, be it
    [undefined]. Where the dispatch stays suspended on a stalled body, so
    does the middleware, and [generate] is not run. *)
Theorem middleware_outcomes :
  forall (chat_model generate : M Value) (expertModel : option string)
         (messages : Value) (w : World) (l : Log),
    let opts := match expertModel with
                | Some e => forced e
                | None => Undefined
                end in
    exists l',
      (processMOERequest messages opts w l = (Pending, l') /\
       ~ bodies_settle w /\
       moe_middleware (moeProvider chat_model) expertModel messages generate w l
         = (Pending, l'))
      \/
      exists r,
        processMOERequest messages opts w l = (Normal r, l') /\
        ((r = fallback_result /\
          moe_middleware (moeProvider chat_model) expertModel messages generate w l
            = generate w l')
         \/
         (get r "usedFallback" = Normal (Bool false) /\
          moe_middleware (moeProvider chat_model) expertModel messages generate w l
            = (Normal (Obj [("text", prop r "result")]), l'))).
Proof.
  intros chat_model generate expertModel messages w l opts.
  assert (Hm :
    moe_middleware (moeProvider chat_model) expertModel messages generate w l =
    match processMOERequest messages opts w l with
    | (Done (Normal r), l') =>
        match get r "usedFallback" with
        | Normal u =>
            if negb (truthy u) then
              match get r "result" with
              | Normal res => (Done (Normal (Obj [("text", res)])), l')
              | Throw e => (Done (Throw e), l')
              end
            else generate w l'
        | Throw e => (Done (Throw e), l')
        end
    | (Done (Throw e), l') => (Done (Throw e), l')
    | (Pending, l') => (Pending, l')
    end).
  { unfold moe_middleware, moeProvider, createMOEProvider. simpl.
    unfold bind at 1.
    change (processMOERequest messages
              match expertModel with
              | Some e => Obj [("expertModel", Str e)]
              | None => Undefined
              end w l)
      with (processMOERequest messages opts w l).
    destruct (processMOERequest messages opts w l) as [[[r|e]|] l'];
      [|reflexivity|reflexivity].
    run_moe.
    destruct (get r "usedFallback") as [u|e]; simpl; [|reflexivity].
    destruct (truthy u); simpl; [reflexivity|].
    destruct (get r "result"); reflexivity. }
  rewrite Hm.
  destruct (processMOERequest_cases messages opts w l)
    as (l' & [(Hrun & Hns) | (r & Hrun & Hr)]); exists l'; rewrite Hrun.
  - left. auto.
  - right. exists r. split; [reflexivity|].
    destruct Hr as [-> | (body & Hs)].
    + left. split; reflexivity.
    + right. pose proof (success_result_usedFallback _ _ Hs) as Hu.
      split; [exact Hu|]. rewrite Hu. simpl.
      assert (Hn : nullish r = false)
        by (destruct r; simpl in *; try discriminate; reflexivity).
      now rewrite (get_not_nullish r "result" Hn).
Qed.

Lemma route_moe_gate_run selectedChatModel w l :
  (String.prefix "moe-" selectedChatModel = false ->
   route_moe_gate selectedChatModel w l = (Normal (Bool false), l)) /\
  (String.prefix "moe-" selectedChatModel = true ->
   exists l1,
     snd (checkMOEAvailability w l) = l1 /\
     ((exists v,
         checkMOEAvailability w l = (Normal v, l1) /\
         route_moe_gate selectedChatModel w l =
           (Normal v,
            if truthy v then l1
            else l1 ++ [EWarn ("MOE API unavailable for model " ++ selectedChatModel
                                 ++ ", using fallback handling")%string]))
      \/
      (checkMOEAvailability w l = (Pending, l1) /\
       stalls HEALTH_TIMEOUT_MS (probe_outcome w l) /\
       route_moe_gate selectedChatModel w l = (Pending, l1)))).
Proof.
  unfold route_moe_gate. split; intros Hp; rewrite Hp.
  - reflexivity.
  - destruct (checkMOEAvailability_run w l) as (errs & Hrun & _).
    eexists. split; [reflexivity|].
    unfold try_catch, bind. rewrite Hrun. simpl.
    destruct (probe_answer_cases (settle (probe_outcome w l) HEALTH_TIMEOUT_MS))
      as [Ha | (Ha & _)]; rewrite Ha.
    + left. eexists. split; [reflexivity|].
      destruct (truthy _); reflexivity.
    + right. split; [reflexivity|]. split; [|reflexivity].
      now apply answer_pending_iff.
Qed.

(** X16. The gate of the chat route contacts the service only for a model
    id that begins with ['moe-']: for any other id it answers [false] and
    does nothing; for an MOE id it runs one probe, answers with the verdict
    of that probe, warns on the console when the verdict is falsy, and never
    throws; where the probe stays suspended on a stalled body, so does the
    gate. *)
Theorem route_moe_gate_spec :
  forall (selectedChatModel : string) (w : World) (l : Log),
    (String.prefix "moe-" selectedChatModel = false ->
     route_moe_gate selectedChatModel w l = (Normal (Bool false), l)) /\
    (String.prefix "moe-" selectedChatModel = true ->
     exists l1,
       snd (checkMOEAvailability w l) = l1 /\
       probes (config w) l1 = probes (config w) l + 1 /\
       ((exists v,
           checkMOEAvailability w l = (Normal v, l1) /\
           route_moe_gate selectedChatModel w l =
             (Normal v,
              if truthy v then l1
              else l1 ++ [EWarn ("MOE API unavailable for model " ++ selectedChatModel
                                   ++ ", using fallback handling")%string]))
        \/
        (checkMOEAvailability w l = (Pending, l1) /\
         stalls HEALTH_TIMEOUT_MS (probe_outcome w l) /\
         route_moe_gate selectedChatModel w l = (Pending, l1)))).
Proof.
  intros id w l. destruct (route_moe_gate_run id w l) as (H1 & H2).
  split; [exact H1|]. intros Hp.
  destruct (H2 Hp) as (l1 & Hl & Hg). exists l1.
  split; [exact Hl|]. split; [|exact Hg].
  destruct (probe_log w l) as (errs & Hrun & _ & Hp' & _).
  rewrite Hrun in Hl. simpl in Hl. subst l1.
  now apply probes_after_probe.
Qed.

Lemma route_moe_gate_spec_witness :
  route_moe_gate "chat-model-reasoning" (service up Silent) [] = (Normal (Bool false), []) /\
  fst (route_moe_gate "moe-auto" (service up Silent) []) = Normal (Bool true).
Proof.
  split.
  - apply (proj1 (route_moe_gate_spec "chat-model-reasoning" (service up Silent) [])).
    reflexivity.
  - destruct (proj2 (route_moe_gate_spec "moe-auto" (service up Silent) []) eq_refl)
      as (l1 & _ & _ & [(v & Hc & ->) | (Hc & _)]).
    + simpl. injection Hc as <- _. reflexivity.
    + discriminate.
Defined.


(** * The chat route *)

Ltac run_route :=
  unfold rtry, rbind, rret, rthrow, call, client, backend; simpl.

Lemma prefix_app sub s :
  String.prefix sub s = true <-> exists post, s = (sub ++ post)%string.
Proof.
  revert sub. induction s as [|b s IH]; intros [|a sub]; simpl.
  - split; [intros _; now exists "" | reflexivity].
  - split; [discriminate | intros (post & H); discriminate].
  - split; [intros _; now exists (String b s) | reflexivity].
  - destruct (Ascii.ascii_dec a b) as [<- | Hne].
    + rewrite IH. split; intros (post & H); exists post; [now rewrite H | now injection H].
    + split; [discriminate | intros (post & H); injection H as -> _; now elim Hne].
Qed.

(** [includes] is the substring test. *)
Lemma includes_spec s sub :
  includes s sub = true <-> exists pre post, s = (pre ++ sub ++ post)%string.
Proof.
  induction s as [|a s IH]; cbn [includes].
  - rewrite orb_false_r, prefix_app. split.
    + intros (post & H). now exists "", post.
    + intros (pre & post & H). destruct pre; [now exists post | discriminate].
  - rewrite orb_true_iff, prefix_app, IH. split.
    + intros [(post & H) | (pre & post & H)].
      * now exists "", post.
      * exists (String a pre), post. simpl. now rewrite H.
    + intros (pre & post & H). destruct pre as [|b pre].
      * left. now exists post.
      * right. injection H as -> H. now exists pre, post.
Qed.

(** The gate never throws; it stays suspended only for an MOE model whose
    probe stalls. *)
Lemma route_moe_gate_returns id w l :
  exists l',
    (exists v, route_moe_gate id w l = (Normal v, l')) \/
    (route_moe_gate id w l = (Pending, l') /\
     String.prefix "moe-" id = true /\
     stalls HEALTH_TIMEOUT_MS (probe_outcome w l)).
Proof.
  destruct (route_moe_gate_run id w l) as (Hno & Hyes).
  destruct (String.prefix "moe-" id) eqn:Hp.
  - destruct (Hyes eq_refl) as (l1 & _ & [(v & _ & Hg) | (_ & Hst & Hg)]).
    + eexists. left. exists v. exact Hg.
    + exists l1. right. auto.
  - exists l. left. exists (Bool false). now apply Hno.
Qed.

Lemma error_response_status e :
  exists st body,
    error_response e = Respond st body /\ (st = 408 \/ st = 503 \/ st = 500)%Z.
Proof.
  unfold error_response.
  destruct (includes (message_of e) "timed out" || includes (message_of e) "aborted");
    [eauto 6|].
  destruct (includes (message_of e) "database" || includes (message_of e) "connection");
    eauto 6.
Qed.

(** The last stretch of POST: two calls, then the gate. *)
Lemma route_stream_cases rb b w s :
  let id := body_id rb in
  let model := body_selectedChatModel rb in
  (exists e new,
     route_stream rb b w s = (Throw e, after s new) /\
     (new = [OpGetMessages id] \/
      new = [OpGetMessages id; OpSaveMessages id (body_message rb)]))
  \/
  (exists v l',
     route_moe_gate model w (events s) = (Normal v, l') /\
     route_stream rb b w s =
       (Normal (DataStream model (String.prefix "moe-" model) v),
        {| ops := ops s ++ [OpGetMessages id; OpSaveMessages id (body_message rb)];
           events := l' |}))
  \/
  (exists l',
     route_moe_gate model w (events s) = (Pending, l') /\
     String.prefix "moe-" model = true /\
     stalls HEALTH_TIMEOUT_MS (probe_outcome w (events s)) /\
     route_stream rb b w s =
       (Pending,
        {| ops := ops s ++ [OpGetMessages id; OpSaveMessages id (body_message rb)];
           events := l' |})).
Proof.
  intros id model. unfold route_stream. fold id model. run_route.
  destruct (getMessagesByChatId b id) as [prev|e].
  - destruct (saveMessages b id (body_message rb)) as [[]|e].
    + right.
      destruct (route_moe_gate_returns model w (events s))
        as (l' & [(v & Hg) | (Hg & Hp & Hst)]).
      * left. exists v, l'. split; [exact Hg|]. rewrite Hg. simpl.
        now rewrite <- app_assoc.
      * right. exists l'. split; [exact Hg|]. split; [exact Hp|].
        split; [exact Hst|]. rewrite Hg. simpl. now rewrite <- app_assoc.
    + left. exists e, [OpGetMessages id; OpSaveMessages id (body_message rb)].
      unfold after. rewrite <- app_assoc. auto.
  - left. exists e, [OpGetMessages id]. auto.
Qed.


(** The outcomes of POST on a well-formed body: an answer built without
    touching the MOE client, or the data stream, or, where the gate stays
    suspended on a stalled probe, no answer. *)
Lemma route_POST_cases rb b w s :
  let id := body_id rb in
  let message := body_message rb in
  let model := body_selectedChatModel rb in
  (exists st body s',
     route_POST (Normal rb) b w s = (Normal (Respond st body), s') /\
     events s' = events s /\
     In st [401; 403; 408; 429; 500; 503]%Z)
  \/
  (exists sess u n pre v l',
     auth b = Normal (Some sess) /\ user sess = Some u /\
     getMessageCountByUserId b (user_id u) = Normal n /\
     (n <= maxMessagesPerDay b (user_type u))%Z /\
     ((pre = [] /\ exists c, getChatById b id = Normal (Some c) /\
                             chat_userId c = user_id u)
      \/
      (exists title,
         pre = [OpTitle message; OpSaveChat id (user_id u) title] /\
         getChatById b id = Normal None /\
         generateTitleFromUserMessage b message = Normal title)) /\
     ((route_moe_gate model w (events s) = (Normal v, l') /\
       route_POST (Normal rb) b w s =
         (Normal (DataStream model (String.prefix "moe-" model) v),
          {| ops := ops s ++ [OpAuth; OpCount (user_id u); OpGetChat id] ++ pre
                          ++ [OpGetMessages id; OpSaveMessages id message];
             events := l' |}))
      \/
      (route_moe_gate model w (events s) = (Pending, l') /\
       String.prefix "moe-" model = true /\
       stalls HEALTH_TIMEOUT_MS (probe_outcome w (events s)) /\
       route_POST (Normal rb) b w s =
         (Pending,
          {| ops := ops s ++ [OpAuth; OpCount (user_id u); OpGetChat id] ++ pre
                          ++ [OpGetMessages id; OpSaveMessages id message];
             events := l' |})))).
Proof.
  intros id message model. unfold route_POST. fold id message.
  assert (Herr : forall (e : Exn) (s' : RState), events s' = events s ->
            exists st body s'',
              (Done (Normal (error_response e)), s') =
              (Done (Normal (Respond st body)), s'') /\
              events s'' = events s /\
              In st [401; 403; 408; 429; 500; 503]%Z).
  { intros e s' Hs'. destruct (error_response_status e) as (st & body & -> & Hst).
    exists st, body, s'. split; [reflexivity|]. split; [exact Hs'|].
    simpl. intuition. }
  assert (Hrefuse : forall (st : Z) (body : ResponseBody) (s' : RState),
            events s' = events s -> In st [401; 403; 408; 429; 500; 503]%Z ->
            exists st0 body0 s'',
              (Done (Normal (Respond st body)), s') =
              (Done (Normal (Respond st0 body0)), s'') /\
              events s'' = events s /\
              In st0 [401; 403; 408; 429; 500; 503]%Z).
  { intros st body s' Hs' Hst. exists st, body, s'. auto. }
  run_route.
  destruct (auth b) as [sess|e] eqn:Ha; [|left; now apply Herr].
  destruct (match sess with Some s0 => user s0 | None => None end) as [u|] eqn:Hu;
    [|left; apply Hrefuse; simpl; auto].
  destruct sess as [sess|]; [|discriminate].
  destruct (getMessageCountByUserId b (user_id u)) as [n|e] eqn:Hn;
    [|left; now apply Herr].
  simpl. destruct (n >? maxMessagesPerDay b (user_type u))%Z eqn:Hgt;
    [left; apply Hrefuse; simpl; auto 10|].
  assert (Hle : (n <= maxMessagesPerDay b (user_type u))%Z) by lia.
  destruct (getChatById b id) as [chat|e] eqn:Hc; [|left; now apply Herr].
  destruct chat as [c|].
  - destruct (String.eqb (chat_userId c) (user_id u)) eqn:Hown; simpl;
      [|left; apply Hrefuse; simpl; auto].
    apply String.eqb_eq in Hown.
    match goal with |- context [route_stream rb b w ?s0] =>
      destruct (route_stream_cases rb b w s0)
        as [(e & new & -> & _) | [(v & l' & Hg & ->) | (l' & Hg & Hp & Hst & ->)]] end.
    + left. now apply Herr.
    + right. exists sess, u, n, [], v, l'. simpl in *.
      repeat (split; [eauto|]). left. split; [exact Hg|].
      rewrite <- !app_assoc. reflexivity.
    + right. exists sess, u, n, [], Undefined, l'. simpl in *.
      repeat (split; [eauto|]). right. repeat (split; [assumption|]).
      rewrite <- !app_assoc. reflexivity.
  - destruct (generateTitleFromUserMessage b message) as [title|e] eqn:Ht;
      [|left; now apply Herr].
    destruct (saveChat b id (user_id u) title) as [[]|e]; [|left; now apply Herr].
    match goal with |- context [route_stream rb b w ?s0] =>
      destruct (route_stream_cases rb b w s0)
        as [(e & new & -> & _) | [(v & l' & Hg & ->) | (l' & Hg & Hp & Hst & ->)]] end.
    + left. now apply Herr.
    + right. exists sess, u, n, [OpTitle message; OpSaveChat id (user_id u) title], v, l'.
      simpl in *. repeat (split; [eauto|]). left. split; [exact Hg|].
      rewrite <- !app_assoc. reflexivity.
    + right.
      exists sess, u, n, [OpTitle message; OpSaveChat id (user_id u) title], Undefined, l'.
      simpl in *. repeat (split; [eauto|]). right. repeat (split; [assumption|]).
      rewrite <- !app_assoc. reflexivity.
Qed.

(** X18. The refusals of POST come before anything is written and before
    the MOE service is contacted: a request without a signed-in user is
    answered 401 after the session lookup alone; a user above the daily
    maximum is answered 429 after the count alone; a request for the chat of
    another user is answered 403 after the lookup of the chat. A count equal
    to the maximum is not refused. *)
Theorem route_POST_refusals :
  forall (rb : PostRequestBody) (b : Backend) (w : World) (s : RState),
    (anonymous (auth b) ->
     route_POST (Normal rb) b w s =
       (Normal (Respond 401 (Text "Unauthorized")), after s [OpAuth])) /\
    (forall u n,
       auth b = signed_in u ->
       getMessageCountByUserId b (user_id u) = Normal n ->
       (n > maxMessagesPerDay b (user_type u))%Z ->
       route_POST (Normal rb) b w s =
         (Normal (Respond 429 (Text "You have exceeded your maximum number of messages for the day! Please try again later.")),
          after s [OpAuth; OpCount (user_id u)])) /\
    (forall u n c,
       auth b = signed_in u ->
       getMessageCountByUserId b (user_id u) = Normal n ->
       (n <= maxMessagesPerDay b (user_type u))%Z ->
       getChatById b (body_id rb) = Normal (Some c) ->
       chat_userId c <> user_id u ->
       route_POST (Normal rb) b w s =
         (Normal (Respond 403 (Text "Forbidden")),
          after s [OpAuth; OpCount (user_id u); OpGetChat (body_id rb)])).
Proof.
  intros rb b w s. unfold route_POST, after, signed_in. split; [|split].
  - intros [Ha | Ha]; run_route; rewrite Ha; reflexivity.
  - intros u n Ha Hn Hgt. run_route. rewrite Ha. simpl. rewrite Hn. simpl.
    apply Z.gt_lt, Z.gtb_lt in Hgt. rewrite Hgt.
    now rewrite <- app_assoc.
  - intros u n c Ha Hn Hle Hc Hown. run_route. rewrite Ha. simpl. rewrite Hn. simpl.
    destruct (n >? maxMessagesPerDay b (user_type u))%Z eqn:Hgt; [lia|].
    rewrite Hc. simpl.
    apply String.eqb_neq in Hown. rewrite Hown. simpl.
    now rewrite <- !app_assoc.
Qed.

(** Nobody is signed in; alice has sent 101 messages today; alice asks for
    the chat of bob after exactly 100 messages. *)
Lemma route_POST_refusals_witness :
  fst (route_POST (Normal (sample_body "moe-auto"))
         (sample_backend (Normal None) 0 None) (service up Silent) fresh)
    = Normal (Respond 401 (Text "Unauthorized")) /\
  snd (route_POST (Normal (sample_body "moe-auto"))
         (sample_backend (signed_in alice) 101 None) (service up Silent) fresh)
    = after fresh [OpAuth; OpCount "alice"] /\
  fst (route_POST (Normal (sample_body "moe-auto"))
         (sample_backend (signed_in alice) 100
            (Some {| chat_id := "chat-1"; chat_userId := "bob" |}))
         (service up Silent) fresh)
    = Normal (Respond 403 (Text "Forbidden")).
Proof.
  split; [|split].
  - rewrite (proj1 (route_POST_refusals (sample_body "moe-auto")
                      (sample_backend (Normal None) 0 None) (service up Silent) fresh)).
    + reflexivity.
    + left. reflexivity.
  - rewrite (proj1 (proj2 (route_POST_refusals (sample_body "moe-auto")
                      (sample_backend (signed_in alice) 101 None)
                      (service up Silent) fresh)) alice 101%Z).
    + reflexivity.
    + reflexivity.
    + reflexivity.
    + reflexivity.
  - rewrite (proj2 (proj2 (route_POST_refusals (sample_body "moe-auto")
                      (sample_backend (signed_in alice) 100
                         (Some {| chat_id := "chat-1"; chat_userId := "bob" |}))
                      (service up Silent) fresh)) alice 100%Z
               {| chat_id := "chat-1"; chat_userId := "bob" |}).
    + reflexivity.
    + reflexivity.
    + reflexivity.
    + discriminate.
    + reflexivity.
    + discriminate.
Defined.

(** X19. The data stream is reached only by a signed-in user within the
    daily maximum, for a chat of their own or a chat that did not exist (and
    was then given a title and saved), and only after the messages of the
    chat were read and the new message was saved; the gate of the MOE service
    is the last thing to run, from the log the request started with. *)
Theorem route_POST_stream_requires :
  forall (parsed : Completion PostRequestBody) (b : Backend) (w : World)
         (s s' : RState) (model : string) (isMOE : bool) (available : Value),
    route_POST parsed b w s = (Normal (DataStream model isMOE available), s') ->
    exists rb sess u n pre,
      parsed = Normal rb /\ model = body_selectedChatModel rb /\
      auth b = Normal (Some sess) /\ user sess = Some u /\
      getMessageCountByUserId b (user_id u) = Normal n /\
      (n <= maxMessagesPerDay b (user_type u))%Z /\
      ((pre = [] /\ exists c, getChatById b (body_id rb) = Normal (Some c) /\
                              chat_userId c = user_id u)
       \/
       (exists title,
          pre = [OpTitle (body_message rb);
                 OpSaveChat (body_id rb) (user_id u) title] /\
          getChatById b (body_id rb) = Normal None /\
          generateTitleFromUserMessage b (body_message rb) = Normal title)) /\
      ops s' = ops s ++ [OpAuth; OpCount (user_id u); OpGetChat (body_id rb)] ++ pre
                     ++ [OpGetMessages (body_id rb);
                         OpSaveMessages (body_id rb) (body_message rb)] /\
      route_moe_gate model w (events s) = (Normal available, events s').
Proof.
  intros parsed b w s s' model isMOE available H.
  destruct parsed as [rb|e]; [|discriminate].
  destruct (route_POST_cases rb b w s)
    as [(st & body & s0 & H0 & _ & _)
       | (sess & u & n & pre & v & l' & Ha & Hu & Hn & Hle & Hpre &
          [(Hg & H0) | (_ & _ & _ & H0)])].
  - rewrite H0 in H. discriminate.
  - rewrite H0 in H. injection H as <- _ <- <-.
    exists rb, sess, u, n, pre. simpl. repeat (split; [assumption || reflexivity|]).
    exact Hg.
  - rewrite H0 in H. discriminate.
Qed.

Lemma route_POST_stream_requires_witness :
  exists pre,
    ops (snd (route_POST (Normal (sample_body "moe-auto"))
                (sample_backend (signed_in alice) 100 None) (service up Silent) fresh))
    = [OpAuth; OpCount "alice"; OpGetChat "chat-1"] ++ pre
        ++ [OpGetMessages "chat-1";
            OpSaveMessages "chat-1" (body_message (sample_body "moe-auto"))].
Proof.
  destruct (route_POST_stream_requires (Normal (sample_body "moe-auto"))
              (sample_backend (signed_in alice) 100 None) (service up Silent) fresh
              (snd (route_POST (Normal (sample_body "moe-auto"))
                      (sample_backend (signed_in alice) 100 None)
                      (service up Silent) fresh))
              "moe-auto" true (Bool true) eq_refl)
    as (rb & sess & u & n & pre & Hrb & _ & Ha & Hu & _ & _ & _ & Hops & _).
  injection Hrb as <-. injection Ha as <-. injection Hu as <-.
  exists pre. exact Hops.
Defined.

(** X20. A request to the chat route contacts the MOE service only when
    the model selected is an MOE model and only after the new message is
    saved, and then with exactly one liveness probe; every other outcome of
    POST leaves the log of the client as it was. *)
Theorem route_POST_probes_last :
  forall (parsed : Completion PostRequestBody) (b : Backend) (w : World)
         (s s' : RState) (res : RouteResult),
    route_POST parsed b w s = (Normal res, s') ->
    events s' <> events s ->
    exists rb available,
      parsed = Normal rb /\
      res = DataStream (body_selectedChatModel rb) true available /\
      In (OpSaveMessages (body_id rb) (body_message rb)) (ops s') /\
      probes (config w) (events s') = probes (config w) (events s) + 1.
Proof.
  intros parsed b w s s' res H Hev.
  destruct parsed as [rb|e]; [|injection H as <- <-; now elim Hev].
  destruct (route_POST_cases rb b w s)
    as [(st & body & s0 & H0 & He & _)
       | (sess & u & n & pre & v & l' & _ & _ & _ & _ & _ &
          [(Hg & H0) | (_ & _ & _ & H0)])];
    [| |rewrite H0 in H; discriminate].
  - rewrite H0 in H. injection H as <- <-. now elim Hev.
  - rewrite H0 in H. injection H as <- <-. simpl in *.
    destruct (route_moe_gate_run (body_selectedChatModel rb) w (events s)) as (Hno & Hyes).
    destruct (String.prefix "moe-" (body_selectedChatModel rb)) eqn:Hp.
    + exists rb, v. split; [reflexivity|]. split; [reflexivity|]. split.
      * repeat (rewrite in_app_iff; simpl). intuition.
      * destruct (Hyes eq_refl) as (l1 & _ & [(v' & Hc & Hg') | (_ & _ & Hg')]);
          rewrite Hg' in Hg; [|discriminate].
        injection Hg as <- <-.
        destruct (probe_result _ _ _ _ Hc) as (_ & errs & -> & _ & Hp' & _).
        pose proof (probes_after_probe w (events s) errs Hp') as Hpr.
        destruct (truthy v'); [exact Hpr|].
        rewrite probes_app, Hpr. unfold probes at 2. simpl. lia.
    + rewrite (Hno eq_refl) in Hg. injection Hg as _ <-. now elim Hev.
Qed.

Lemma route_POST_probes_last_witness :
  probes default_config
    (events (snd (route_POST (Normal (sample_body "moe-expert-byt5"))
                    (sample_backend (signed_in alice) 3 None)
                    (service refused Silent) fresh))) = 0 + 1.
Proof.
  destruct (route_POST_probes_last (Normal (sample_body "moe-expert-byt5"))
              (sample_backend (signed_in alice) 3 None) (service refused Silent) fresh
              (snd (route_POST (Normal (sample_body "moe-expert-byt5"))
                      (sample_backend (signed_in alice) 3 None)
                      (service refused Silent) fresh))
              (DataStream "moe-expert-byt5" true (Bool false)) eq_refl)
    as (rb & available & _ & _ & _ & Hp).
  - simpl. discriminate.
  - exact Hp.
Defined.

(** X17. The handler of POST throws nothing, whatever its collaborators
    settle to, throw included. It completes with a response whose status is
    one of 400, 401, 403, 408, 429, 500 and 503, or with the data stream of
    the model the request selected; the one run without an answer is that of
    an MOE model whose liveness probe stalls on its body: the new message is
    saved by then and the handler stays suspended in the gate. *)
Theorem route_POST_always_answers :
  forall (parsed : Completion PostRequestBody) (b : Backend) (w : World) (s : RState),
  exists s',
    (exists res,
       route_POST parsed b w s = (Normal res, s') /\
       match res with
       | Respond st _ => In st [400; 401; 403; 408; 429; 500; 503]%Z
       | DataStream model isMOEModel _ =>
           exists rb, parsed = Normal rb /\ model = body_selectedChatModel rb /\
                      isMOEModel = String.prefix "moe-" model
       end)
    \/
    (route_POST parsed b w s = (Pending, s') /\
     exists rb,
       parsed = Normal rb /\
       String.prefix "moe-" (body_selectedChatModel rb) = true /\
       stalls HEALTH_TIMEOUT_MS (probe_outcome w (events s)) /\
       In (OpSaveMessages (body_id rb) (body_message rb)) (ops s') /\
       probes (config w) (events s') = probes (config w) (events s) + 1).
Proof.
  intros parsed b w s.
  destruct parsed as [rb|e].
  2:{ eexists. left. eexists. split; [reflexivity|]. simpl. auto. }
  destruct (route_POST_cases rb b w s)
    as [(st & body & s0 & H0 & _ & Hst)
       | (sess & u & n & pre & v & l' & _ & _ & _ & _ & _ &
          [(Hg & H0) | (Hg & Hp & Hstall & H0)])].
  - exists s0. left. eexists. split; [exact H0|]. simpl in *. intuition.
  - eexists. left. eexists. split; [exact H0|]. exists rb. auto.
  - eexists. right. split; [exact H0|]. exists rb.
    split; [reflexivity|]. split; [exact Hp|]. split; [exact Hstall|]. split.
    + simpl. repeat (rewrite in_app_iff; simpl). intuition.
    + simpl.
      destruct (route_moe_gate_run (body_selectedChatModel rb) w (events s)) as (_ & Hyes).
      destruct (Hyes Hp) as (l1 & Hl & [(v' & _ & Hg') | (_ & _ & Hg')]);
        rewrite Hg' in Hg; [discriminate|].
      injection Hg as <-.
      destruct (probe_log w (events s)) as (errs & Hrun & _ & Hp' & _).
      rewrite Hrun in Hl. simpl in Hl. subst l1.
      now apply probes_after_probe.
Qed.


(** ** The handler of DELETE *)

(** The outcomes of DELETE for a non-empty id and a settled session. *)
Lemma route_DELETE_cases i sess b w s :
  i <> "" ->
  auth b = Normal sess ->
  (route_DELETE (Some i) b w s =
     (Normal (Respond 401 (Text "Unauthorized")), after s [OpAuth]) /\
   (forall u, match sess with Some s0 => user s0 | None => None end = Some u ->
              user_id u = ""))
  \/
  (exists u,
     match sess with Some s0 => user s0 | None => None end = Some u /\
     user_id u <> "" /\
     ((exists st body,
         route_DELETE (Some i) b w s =
           (Normal (Respond st body), after s [OpAuth; OpGetChat i]) /\
         ((st = 500%Z /\ (getChatById b i = Normal None \/
                          exists e, getChatById b i = Throw e)) \/
          (st = 403%Z /\ exists c, getChatById b i = Normal (Some c) /\
                                  chat_userId c <> user_id u)))
      \/
      (exists c st body,
         getChatById b i = Normal (Some c) /\ chat_userId c = user_id u /\
         route_DELETE (Some i) b w s =
           (Normal (Respond st body), after s [OpAuth; OpGetChat i; OpDelete i]) /\
         ((st = 200%Z /\ exists r, deleteChatById b i = Normal r /\ body = Json r) \/
          (st = 500%Z /\ exists e, deleteChatById b i = Throw e))))).
Proof.
  intros Hi Ha. apply String.eqb_neq in Hi.
  unfold route_DELETE, after. rewrite Hi. run_route. rewrite Ha.
  destruct (match sess with Some s0 => user s0 | None => None end) as [u|];
    [|left; split; [reflexivity | discriminate]].
  destruct (String.eqb (user_id u) "") eqn:Hu.
  - left. split; [reflexivity|]. intros u' [= <-]. now apply String.eqb_eq.
  - right. exists u. split; [reflexivity|]. apply String.eqb_neq in Hu.
    split; [exact Hu|].
    destruct (getChatById b i) as [[c|]|e] eqn:Hc; simpl.
    + destruct (String.eqb (chat_userId c) (user_id u)) eqn:Hown; simpl.
      * right. apply String.eqb_eq in Hown.
        destruct (deleteChatById b i) as [r|e] eqn:Hd; simpl;
          exists c; eexists; eexists; rewrite <- !app_assoc;
          (split; [reflexivity|]); (split; [exact Hown|]);
          (split; [reflexivity|]); [left | right]; eauto.
      * left. apply String.eqb_neq in Hown. eexists. eexists.
        rewrite <- !app_assoc. split; [reflexivity|]. right. eauto.
    + left. eexists. eexists. rewrite <- !app_assoc.
      split; [reflexivity|]. left. auto.
    + left. eexists. eexists. rewrite <- !app_assoc.
      split; [reflexivity|]. left. eauto.
Qed.

(** X21. DELETE answers 404 without making any call when the [id]
    parameter is absent or empty; it throws exactly when the session lookup
    throws; in every other case it completes with a response whose status is
    200, 401, 403 or 500, and it never touches the MOE client. *)
Theorem route_DELETE_outcomes :
  forall (id : option string) (b : Backend) (w : World) (s : RState),
    (id = None \/ id = Some "" ->
     route_DELETE id b w s = (Normal (Respond 404 (Text "Not Found")), s)) /\
    (forall i e,
       id = Some i -> i <> "" -> auth b = Throw e ->
       route_DELETE id b w s = (Throw e, after s [OpAuth])) /\
    (forall i sess,
       id = Some i -> i <> "" -> auth b = Normal sess ->
       exists st body s',
         route_DELETE id b w s = (Normal (Respond st body), s') /\
         In st [200; 401; 403; 500]%Z /\ events s' = events s).
Proof.
  intros id b w s. split; [|split].
  - intros [-> | ->]; reflexivity.
  - intros i e -> Hi Ha. apply String.eqb_neq in Hi.
    unfold route_DELETE, after. rewrite Hi. run_route. now rewrite Ha.
  - intros i sess -> Hi Ha.
    destruct (route_DELETE_cases i sess b w s Hi Ha)
      as [(H & _) | (u & _ & _ & [(st & body & H & Hst) | (c & st & body & _ & _ & H & Hst)])].
    + rewrite H. eexists. eexists. eexists. split; [reflexivity|]. simpl. auto.
    + rewrite H. exists st, body. eexists. split; [reflexivity|].
      split; [|reflexivity].
      destruct Hst as [(-> & _) | (-> & _)]; simpl; auto.
    + rewrite H. exists st, body. eexists. split; [reflexivity|].
      split; [|reflexivity].
      destruct Hst as [(-> & _) | (-> & _)]; simpl; auto.
Qed.

Lemma route_DELETE_outcomes_witness :
  route_DELETE (Some "") (sample_backend (signed_in alice) 0 None) (service up Silent) fresh
    = (Normal (Respond 404 (Text "Not Found")), fresh) /\
  route_DELETE (Some "chat-1")
    (sample_backend (Throw (Error "session store unreachable")) 0 None)
    (service up Silent) fresh
    = (Throw (Error "session store unreachable"), after fresh [OpAuth]).
Proof.
  split.
  - apply (proj1 (route_DELETE_outcomes (Some "") _ _ _)). now right.
  - apply (proj1 (proj2 (route_DELETE_outcomes (Some "chat-1") _ _ _)) "chat-1").
    + reflexivity.
    + discriminate.
    + reflexivity.
Defined.

(** X22. DELETE deletes only for the owner: when [deleteChatById] is
    called, the id is the one of the request, the session has a user with a
    non-empty id, the chat exists and its [userId] is the id of that user. *)
Theorem route_DELETE_only_owner :
  forall (id : option string) (b : Backend) (w : World) (s s' : RState)
         (c : Completion RouteResult) (deleted : string),
    route_DELETE id b w s = (c, s') ->
    In (OpDelete deleted) (ops s') ->
    ~ In (OpDelete deleted) (ops s) ->
    exists sess u chat,
      id = Some deleted /\
      auth b = Normal (Some sess) /\ user sess = Some u /\ user_id u <> "" /\
      getChatById b deleted = Normal (Some chat) /\
      chat_userId chat = user_id u.
Proof.
  intros id b w s s' c deleted Hrun Hin Hnot.
  assert (Hsame : forall new,
            (forall o, In o new -> o <> OpDelete deleted) ->
            ~ In (OpDelete deleted) (ops (after s new))).
  { intros new Hnew. unfold after. simpl. rewrite in_app_iff.
    intros [H | H]; [now apply Hnot | now apply (Hnew _ H)]. }
  destruct id as [i|]; [|injection Hrun as _ <-; now elim Hnot].
  destruct (String.eqb i "") eqn:Hi.
  { apply String.eqb_eq in Hi. subst i. injection Hrun as _ <-. now elim Hnot. }
  apply String.eqb_neq in Hi.
  destruct (auth b) as [sess|e] eqn:Ha.
  2:{ unfold route_DELETE in Hrun. apply String.eqb_neq in Hi. rewrite Hi in Hrun.
      revert Hrun. run_route. rewrite Ha. intros [= _ <-].
      elim (Hsame [OpAuth]); [|exact Hin].
      intros o [<- | []]. discriminate. }
  destruct (route_DELETE_cases i sess b w s Hi Ha)
    as [(H & _) | (u & Hu & Hne & [(st & body & H & _) | (ch & st & body & Hc & Hown & H & _)])];
    rewrite H in Hrun; injection Hrun as _ <-.
  - elim (Hsame [OpAuth]); [|exact Hin]. intros o [<- | []]. discriminate.
  - elim (Hsame [OpAuth; OpGetChat i]); [|exact Hin].
    intros o [<- | [<- | []]]; discriminate.
  - unfold after in Hin. simpl in Hin. rewrite in_app_iff in Hin.
    destruct Hin as [Hin | Hin]; [now elim Hnot|].
    destruct Hin as [Hin | [Hin | [Hin | []]]]; try discriminate.
    injection Hin as ->.
    destruct sess as [sess|]; [|discriminate].
    exists sess, u, ch. auto 10.
Qed.

Lemma route_DELETE_only_owner_witness :
  exists sess u chat,
    auth (sample_backend (signed_in alice) 0
            (Some {| chat_id := "chat-1"; chat_userId := "alice" |}))
      = Normal (Some sess) /\
    user sess = Some u /\ chat_userId chat = user_id u.
Proof.
  destruct (route_DELETE_only_owner (Some "chat-1")
              (sample_backend (signed_in alice) 0
                 (Some {| chat_id := "chat-1"; chat_userId := "alice" |}))
              (service up Silent) fresh
              (after fresh [OpAuth; OpGetChat "chat-1"; OpDelete "chat-1"])
              (Normal (Respond 200 (Json (Obj [("id", Str "chat-1")]))))
              "chat-1")
    as (sess & u & chat & _ & Ha & Hu & _ & _ & Hown).
  - reflexivity.
  - simpl. auto.
  - simpl. tauto.
  - exists sess, u, chat. auto.
Defined.

(** X23. DELETE of a chat that does not exist is answered 500, not 404:
    the lookup finds nothing, reading [userId] of the missing chat throws
    inside the [try] block, and nothing is deleted. *)
Theorem route_DELETE_missing_chat :
  forall (i : string) (u : User) (b : Backend) (w : World) (s : RState),
    i <> "" -> user_id u <> "" ->
    auth b = signed_in u ->
    getChatById b i = Normal None ->
    route_DELETE (Some i) b w s =
      (Normal (Respond 500 (Text "An error occurred while processing your request!")),
       after s [OpAuth; OpGetChat i]).
Proof.
  intros i u b w s Hi Hu Ha Hc.
  apply String.eqb_neq in Hi. apply String.eqb_neq in Hu.
  unfold route_DELETE, after, signed_in in *. rewrite Hi. run_route.
  rewrite Ha. simpl. rewrite Hu, Hc. simpl. now rewrite <- app_assoc.
Qed.

Lemma route_DELETE_missing_chat_witness :
  fst (route_DELETE (Some "chat-9") (sample_backend (signed_in alice) 0 None)
         (service up Silent) fresh)
    = Normal (Respond 500 (Text "An error occurred while processing your request!")).
Proof.
  rewrite (route_DELETE_missing_chat "chat-9" alice
             (sample_backend (signed_in alice) 0 None) (service up Silent) fresh).
  - reflexivity.
  - discriminate.
  - discriminate.
  - reflexivity.
  - reflexivity.
Defined.


(** ** Budgets of a dispatch *)

Lemma deadlines_app l l' : (deadlines (l ++ l') = deadlines l + deadlines l')%Z.
Proof.
  induction l as [|ev l IH]; [reflexivity|].
  destruct ev; simpl; rewrite IH; lia.
Qed.

Lemma deadlines_no_fetch l : fetch_count l = 0 -> deadlines l = 0%Z.
Proof.
  induction l as [|ev l IH]; [reflexivity|].
  destruct ev; simpl; try discriminate; exact IH.
Qed.

(** X25. Every request of a dispatch is under an abort timer, and the
    timers of one dispatch add up to 5000 ms when only the probe is sent and
    to 5000 ms plus [MOE_TIMEOUT_MS] when the processing call follows: the
    wait for the two responses to begin is bounded by that sum. *)
Theorem dispatch_deadline_budget :
  forall (messages opts : Value) (w : World) (l : Log),
    let l' := snd (processMOERequest messages opts w l) in
    ((deadlines l' = deadlines l + HEALTH_TIMEOUT_MS)%Z /\
     processing_calls (config w) l' = processing_calls (config w) l)
    \/
    ((deadlines l' = deadlines l + HEALTH_TIMEOUT_MS + MOE_TIMEOUT_MS (config w))%Z /\
     processing_calls (config w) l' = processing_calls (config w) l + 1).
Proof.
  intros messages opts w l. cbv zeta.
  destruct (processMOERequest_anatomy messages opts w l)
    as (errs & Hf & _ & Hc & H).
  assert (Hd : (deadlines (l ++ probe_event w :: errs) = deadlines l + HEALTH_TIMEOUT_MS)%Z).
  { rewrite deadlines_app. simpl. rewrite (deadlines_no_fetch _ Hf). lia. }
  pose proof (processing_calls_after_probe w l errs Hc) as Hp.
  destruct H as [(_ & H) | [(_ & _ & H) | [(_ & e & _ & H) | (_ & text & c & _ & _ & H)]]].
  - left. rewrite H. simpl. split; [exact Hd | exact Hp].
  - left. rewrite H. simpl. unfold unavailable_log.
    rewrite deadlines_app, Hd, processing_calls_app, Hp.
    unfold processing_calls at 2. simpl. split; lia.
  - left. rewrite H. simpl. unfold failed_log.
    rewrite deadlines_app, Hd, processing_calls_app, Hp.
    unfold processing_calls at 2. simpl. split; lia.
  - right.
    assert (Hlog : forall tail, fetch_count tail = 0 ->
              processing_calls (config w) tail = 0 ->
              (deadlines (((l ++ probe_event w :: errs) ++ [processing_event w text]) ++ tail)
               = deadlines l + HEALTH_TIMEOUT_MS + MOE_TIMEOUT_MS (config w))%Z /\
              processing_calls (config w)
                (((l ++ probe_event w :: errs) ++ [processing_event w text]) ++ tail)
              = processing_calls (config w) l + 1).
    { intros tail Ht Hpt. split.
      - rewrite !deadlines_app, (deadlines_no_fetch _ Ht).
        rewrite <- deadlines_app, Hd. simpl. lia.
      - rewrite (processing_calls_app _ _ tail),
          (processing_calls_app _ _ [processing_event w text]),
          Hp, processing_calls_event, Hpt. lia. }
    destruct c as [[body|e]|]; [destruct (success_result body)| |]; rewrite H; simpl.
    + destruct (Hlog [] eq_refl eq_refl) as (H1 & H2).
      rewrite app_nil_r in H1, H2. split; [exact H1 | rewrite H2; lia].
    + destruct (Hlog [EError "MOE processing failed:" e] eq_refl eq_refl) as (H1 & H2).
      split; [exact H1 | unfold failed_log; rewrite H2; lia].
    + destruct (Hlog [EError "MOE processing failed:" e] eq_refl eq_refl) as (H1 & H2).
      split; [exact H1 | unfold failed_log; rewrite H2; lia].
    + destruct (Hlog [] eq_refl eq_refl) as (H1 & H2).
      rewrite app_nil_r in H1, H2. split; [exact H1 | rewrite H2; lia].
Qed.

(** * Timers, verdicts and absorption *)



(** X28. What the probe resolves with, for every network. It never throws.
    It resolves with [true] exactly on an affirmative answer, with [false]
    on every probe that fails before [models_loaded] is looked at, and with
    the [models_loaded] of the body, whatever that is, on a timely ok body
    whose [status] is ['healthy']; what it resolves with is truthy exactly
    when that [models_loaded] is. It does not resolve exactly when the body
    of a timely ok response stalls. *)
Theorem checkMOEAvailability_answers :
  forall (w : World) (l : Log),
    let o := probe_outcome w l in
    let a := fst (checkMOEAvailability w l) in
    (forall e, a <> Throw e) /\
    (a = Normal (Bool true) <-> affirmative o) /\
    (probe_fails o -> a = Normal (Bool false)) /\
    (forall m, healthy_with (fun x => x = m) o -> a = Normal m) /\
    (a = Pending <-> stalls HEALTH_TIMEOUT_MS o) /\
    (forall v, a = Normal v ->
       (truthy v = true <-> healthy_with (fun m => truthy m = true) o)).
Proof.
  intros w l o a. subst a. rewrite checkMOEAvailability_answer. fold o.
  split; [|split; [|split; [|split; [|split]]]].
  - intros e. destruct (probe_answer_cases (settle o HEALTH_TIMEOUT_MS))
      as [H | (H & _)]; rewrite H; discriminate.
  - split.
    + intros H. apply verdict_true_iff. now apply probe_answer_normal.
    + intros H. destruct (healthy_answer _ _ H) as (m & -> & Ha). exact Ha.
  - apply answer_probe_fails.
  - intros m H. destruct (healthy_answer _ _ H) as (m' & -> & Ha). exact Ha.
  - apply answer_pending_iff.
  - intros v H. apply probe_answer_normal in H. rewrite <- H.
    apply verdict_truthy_iff.
Qed.

(** A refused connection; a body whose [models_loaded] is absent. *)
Lemma checkMOEAvailability_answers_witness :
  fst (checkMOEAvailability (service refused Silent) []) = Normal (Bool false) /\
  fst (checkMOEAvailability (service healthy_without_models Silent) []) = Normal Undefined.
Proof.
  split.
  - apply (proj1 (proj2 (proj2 (checkMOEAvailability_answers (service refused Silent) [])))).
    apply probe_connection.
  - apply (proj1 (proj2 (proj2 (proj2
             (checkMOEAvailability_answers (service healthy_without_models Silent) []))))).
    exists 40%Z, (json_response (Obj [("status", Str "healthy")])),
      (Obj [("status", Str "healthy")]), Undefined.
    repeat split.
Defined.

Lemma stalled_verdict o :
  stalls HEALTH_TIMEOUT_MS o -> verdict (settle o HEALTH_TIMEOUT_MS) = Bool false.
Proof.
  intros H. apply answer_pending_iff in H. unfold verdict. now rewrite H.
Qed.

(** X29. What a dispatch absorbs. No exception leaves [processMOERequest],
    and what it returns carries a boolean [usedFallback]. A probe that
    fails, and any falsy verdict of a probe that resolves, give the fallback
    object; so do, after a truthy verdict, a conversation without user text
    and a processing call that fails (timeout, transport error, error
    response, unparsable body). The dispatch returns nothing exactly when a
    body stalls, that of the probe or, after a truthy verdict, that of the
    processing call; where every body settles it returns. *)
Theorem processMOERequest_absorbs_failures :
  forall (messages opts : Value) (w : World) (l : Log),
    let o := probe_outcome w l in
    let v := verdict (settle o HEALTH_TIMEOUT_MS) in
    let a := fst (processMOERequest messages opts w l) in
    (forall e, a <> Throw e) /\
    (forall r, a = Normal r -> exists b, get r "usedFallback" = Normal (Bool b)) /\
    (probe_fails o -> a = Normal fallback_result) /\
    (~ stalls HEALTH_TIMEOUT_MS o -> truthy v = false -> a = Normal fallback_result) /\
    (truthy v = true ->
     forall e, last_user_text messages = Throw e -> a = Normal fallback_result) /\
    (truthy v = true ->
     forall text,
       last_user_text messages = Normal text ->
       call_fails (MOE_TIMEOUT_MS (config w))
                  (processing_outcome w (l ++ [probe_event w]) text) ->
       a = Normal fallback_result) /\
    (a = Pending <->
     stalls HEALTH_TIMEOUT_MS o \/
     (truthy v = true /\
      exists text,
        last_user_text messages = Normal text /\
        stalls (MOE_TIMEOUT_MS (config w))
               (processing_outcome w (l ++ [probe_event w]) text))) /\
    (bodies_settle w -> exists r, a = Normal r).
Proof.
  intros messages opts w l o v a.
  assert (Hfalsy : ~ stalls HEALTH_TIMEOUT_MS o -> truthy v = false ->
                   a = Normal fallback_result).
  { intros Hns Hv. subst a.
    destruct (processMOERequest_anatomy messages opts w l)
      as (errs & _ & _ & _ &
          [(Hst & _) | [(_ & _ & H) | [(Hv' & _) | (Hv' & _)]]]).
    - now elim Hns.
    - now rewrite H.
    - fold o v in Hv'. congruence.
    - fold o v in Hv'. congruence. }
  assert (Hpending : a = Pending <->
     stalls HEALTH_TIMEOUT_MS o \/
     (truthy v = true /\
      exists text,
        last_user_text messages = Normal text /\
        stalls (MOE_TIMEOUT_MS (config w))
               (processing_outcome w (l ++ [probe_event w]) text))).
  { subst a.
    destruct (processMOERequest_anatomy messages opts w l)
      as (errs & Hf & _ & _ &
          [(Hst & H) | [(Hns & Hv & H) | [(Hv & e & Ht & H)
                                         | (Hv & text & c & Ht & Hpr & H)]]]);
      fold o v in Hv || idtac.
    - rewrite H. simpl. split; auto.
    - rewrite H. simpl. split; [discriminate|].
      intros [Hst | (Hv' & _)]; [now elim Hns | congruence].
    - rewrite H. simpl. split; [discriminate|].
      intros [Hst | (_ & text & Ht' & _)]; [|congruence].
      apply stalled_verdict in Hst. fold v in Hst. rewrite Hst in Hv. discriminate.
    - destruct (processMOEText_run text no_options w (l ++ probe_event w :: errs))
        as (c' & Hpr' & _ & _ & Hstall).
      fold (processing_event w text) in Hpr'.
      assert (c' = c) by congruence. subst c'.
      rewrite fetch_count_after_probe in Hstall by assumption.
      fold (processing_outcome w (l ++ [probe_event w]) text) in Hstall.
      assert (Hnot : stalls HEALTH_TIMEOUT_MS o -> False).
      { intros Hst. apply stalled_verdict in Hst. fold v in Hst.
        rewrite Hst in Hv. discriminate. }
      destruct c as [[resp|e]|].
      + assert (Hd : fst (processMOERequest messages opts w l) <> Pending).
        { destruct (success_result resp); rewrite H; discriminate. }
        split; [intros Hp; now elim Hd|].
        intros [Hst | (_ & text' & Ht' & Hst)]; [now elim (Hnot Hst)|].
        assert (text' = text) by congruence. subst text'.
        apply Hstall in Hst. discriminate.
      + rewrite H. simpl. split; [discriminate|].
        intros [Hst | (_ & text' & Ht' & Hst)]; [now elim (Hnot Hst)|].
        assert (text' = text) by congruence. subst text'.
        apply Hstall in Hst. discriminate.
      + rewrite H. simpl. split; [|reflexivity].
        intros _. right. split; [exact Hv|]. exists text. split; [exact Ht|].
        now apply Hstall. }
  split; [|split; [|split; [|split; [|split; [|split; [|split]]]]]].
  - intros e H. subst a.
    pose proof (processMOERequest_completion messages opts w l) as Hc.
    destruct (processMOERequest messages opts w l) as [[[r|e']|] l'];
      simpl in H; try discriminate. exact Hc.
  - intros r H. subst a.
    pose proof (processMOERequest_completion messages opts w l) as Hc.
    destruct (processMOERequest messages opts w l) as [[[r'|e']|] l'];
      simpl in H; try discriminate. injection H as ->.
    destruct Hc as [-> | (resp & Hs)].
    + now exists true.
    + exists false. eapply success_result_usedFallback; eauto.
  - intros Hfail. apply Hfalsy.
    + intros Hst. apply answer_pending_iff in Hst.
      rewrite (answer_probe_fails _ Hfail) in Hst. discriminate.
    + unfold v. now rewrite (verdict_probe_fails _ Hfail).
  - exact Hfalsy.
  - intros Hv e Ht. subst a.
    destruct (processMOERequest_anatomy messages opts w l)
      as (errs & _ & _ & _ &
          [(Hst & _) | [(_ & Hv' & _) | [(_ & e' & _ & H) | (_ & text & c & Ht' & _)]]]).
    + apply stalled_verdict in Hst. fold o v in Hst. rewrite Hst in Hv. discriminate.
    + fold o v in Hv'. congruence.
    + now rewrite H.
    + congruence.
  - intros Hv text Ht Hfail. subst a.
    destruct (failed_call_falls_back messages opts w l text Hv Ht Hfail)
      as (errs & e & _ & _ & _ & H).
    now rewrite H.
  - exact Hpending.
  - intros Hb. subst a.
    destruct (processMOERequest_returns messages opts w l Hb) as (r & l' & H & _).
    exists r. now rewrite H.
Qed.

(** The service refuses the connection; the service is up and answers the
    processing call with a 503. *)
Lemma processMOERequest_absorbs_failures_witness :
  fst (processMOERequest hello Undefined (service refused Silent) []) =
    Normal fallback_result /\
  fst (processMOERequest hello Undefined (service up overloaded) []) =
    Normal fallback_result.
Proof.
  split.
  - apply (proj1 (proj2 (proj2
             (processMOERequest_absorbs_failures hello Undefined
                (service refused Silent) [])))).
    apply probe_connection.
  - apply (proj1 (proj2 (proj2 (proj2 (proj2 (proj2
             (processMOERequest_absorbs_failures hello Undefined
                (service up overloaded) []))))))
             eq_refl (Str "hello") eq_refl).
    apply fails_error_response. reflexivity.
Defined.
